(** * Qt Web Extractor: the page state machine, the PDF path, PDF detection
    and the request dispatcher (src/qt_web_extractor/extractor.py, server.py). *)

From Stdlib Require Import String Ascii List Bool ZArith Lia.
From Stdlib Require Import Sorting.Sorted.
Import ListNotations.

Local Open Scope bool_scope.
Local Set Warnings "-register-all".

(** ** [_ExtractionResult] (extractor.py, lines 75-99) *)

Record ExtractionResult := mkResult {
  url : string;
  title : string;
  text : string;
  html : string;
  error : string
}.

(** [_ExtractionResult()] with its keyword defaults. *)
Definition empty_result : ExtractionResult := mkResult "" "" "" "" "".

Definition set_url (r : ExtractionResult) (u : string) :=
  mkResult u (title r) (text r) (html r) (error r).
Definition set_title (r : ExtractionResult) (t : string) :=
  mkResult (url r) t (text r) (html r) (error r).
Definition set_text (r : ExtractionResult) (t : string) :=
  mkResult (url r) (title r) t (html r) (error r).
Definition set_html (r : ExtractionResult) (h : string) :=
  mkResult (url r) (title r) (text r) h (error r).
Definition set_error (r : ExtractionResult) (e : string) :=
  mkResult (url r) (title r) (text r) (html r) e.

(** ** [_WebPage] (extractor.py, lines 105-174)

    The page is a state machine driven by the Qt event loop.  The state holds
    the Python attributes ([_settled], [_load_ok], [_result]), whether each
    single-shot [QTimer] is armed, the number of outstanding [toPlainText] and
    [toHtml] callbacks, and the engine's current title and url (what
    [self.title()] and [self.url()] return). *)

Module WebPage.

Record state := mkState {
  settled : bool;
  load_ok : bool;
  stability_active : bool;
  timeout_active : bool;
  result : ExtractionResult;
  text_pending : nat;
  html_pending : nat;
  eng_title : string;
  eng_url : string
}.

(** What a handler asks of the engine or emits. *)
Inductive effect :=
  | ReqText                        (* self.toPlainText(self._on_text_ready) *)
  | ReqHtml                        (* self.toHtml(self._on_html_ready) *)
  | Emit (r : ExtractionResult).   (* self.extraction_done.emit(self._result) *)

(** What the event loop can deliver to the page. [LoadFinished] may arrive any
    number of times (redirects and script-driven reloads each finish a load);
    a timer fires only while armed; a callback only while one is outstanding. *)
Inductive event :=
  | LoadFinished (ok : bool)
  | StabilityTimeout
  | TimeoutTimeout
  | TextReady (t : string)
  | HtmlReady (h : string)
  | Navigated (t u : string).

Definition timed_out_msg : string :=
  "Timed out (partial content may be available)".
Definition load_failed_msg : string :=
  "Page load reported failure (content may be incomplete)".

Definition with_result (s : state) (r : ExtractionResult) : state :=
  mkState (settled s) (load_ok s) (stability_active s) (timeout_active s) r
    (text_pending s) (html_pending s) (eng_title s) (eng_url s).
Definition with_load_ok (s : state) (b : bool) : state :=
  mkState (settled s) b (stability_active s) (timeout_active s) (result s)
    (text_pending s) (html_pending s) (eng_title s) (eng_url s).
Definition with_stability (s : state) (b : bool) : state :=
  mkState (settled s) (load_ok s) b (timeout_active s) (result s)
    (text_pending s) (html_pending s) (eng_title s) (eng_url s).
Definition with_timeout (s : state) (b : bool) : state :=
  mkState (settled s) (load_ok s) (stability_active s) b (result s)
    (text_pending s) (html_pending s) (eng_title s) (eng_url s).
Definition with_text_pending (s : state) (n : nat) : state :=
  mkState (settled s) (load_ok s) (stability_active s) (timeout_active s)
    (result s) n (html_pending s) (eng_title s) (eng_url s).
Definition with_html_pending (s : state) (n : nat) : state :=
  mkState (settled s) (load_ok s) (stability_active s) (timeout_active s)
    (result s) (text_pending s) n (eng_title s) (eng_url s).
Definition with_settled (s : state) (b : bool) : state :=
  mkState b (load_ok s) (stability_active s) (timeout_active s) (result s)
    (text_pending s) (html_pending s) (eng_title s) (eng_url s).

(** [__init__]: nothing armed, nothing outstanding, the engine on a blank page. *)
Definition new_page : state :=
  mkState false false false false empty_result 0 0 "" "".

(** [start_loading]: [self._result.url = url]; [self._timeout_timer.start()];
    [self.load(QUrl(url))]. *)
Definition start_loading (u : string) (s : state) : state :=
  with_timeout (with_result s (set_url (result s) u)) true.

(** [_on_load_finished] *)
Definition on_load_finished (ok : bool) (s : state) : state * list effect :=
  if settled s then (s, [])
  else
    let s1 := if ok then with_load_ok s true else s in
    (with_stability s1 true, []).

(** [_extract_content]: title and url are read from the engine, the text is
    requested, then the error is set. *)
Definition extract_content (timed_out : bool) (s : state) : state * list effect :=
  if settled s then (s, [])
  else
    let r1 := set_url (set_title (result s) (eng_title s)) (eng_url s) in
    let s1 := with_text_pending (with_result s r1) (S (text_pending s)) in
    let r2 :=
      if timed_out then set_error r1 timed_out_msg
      else if negb (load_ok s) then set_error r1 load_failed_msg
      else r1 in
    (with_result s1 r2, [ReqText]).

(** [_on_timeout] *)
Definition on_timeout (s : state) : state * list effect :=
  if settled s then (s, [])
  else extract_content true (with_stability s false).

(** [_finish] *)
Definition finish (s : state) : state * list effect :=
  let s1 := with_stability (with_timeout (with_settled s true) false) false in
  (s1, [Emit (result s1)]).

(** [_on_text_ready] *)
Definition on_text_ready (t : string) (s : state) : state * list effect :=
  if settled s then (s, [])
  else
    let s1 := with_result s (set_text (result s) t) in
    (with_html_pending s1 (S (html_pending s1)), [ReqHtml]).

(** [_on_html_ready] *)
Definition on_html_ready (h : string) (s : state) : state * list effect :=
  if settled s then (s, [])
  else finish (with_result s (set_html (result s) h)).

(** One delivery by the event loop.  A single-shot timer is disarmed when it
    fires; a callback is consumed when it is delivered. *)
Definition step (s : state) (e : event) : option (state * list effect) :=
  match e with
  | LoadFinished ok => Some (on_load_finished ok s)
  | StabilityTimeout =>
      if stability_active s then Some (extract_content false (with_stability s false))
      else None
  | TimeoutTimeout =>
      if timeout_active s then Some (on_timeout (with_timeout s false))
      else None
  | TextReady t =>
      match text_pending s with
      | O => None
      | S n => Some (on_text_ready t (with_text_pending s n))
      end
  | HtmlReady h =>
      match html_pending s with
      | O => None
      | S n => Some (on_html_ready h (with_html_pending s n))
      end
  | Navigated t u =>
      Some (mkState (settled s) (load_ok s) (stability_active s) (timeout_active s)
              (result s) (text_pending s) (html_pending s) t u, [])
  end.

(** A run of the event loop: [None] when some event was not deliverable. *)
Fixpoint run (s : state) (es : list event) : option (state * list effect) :=
  match es with
  | [] => Some (s, [])
  | e :: es' =>
      match step s e with
      | None => None
      | Some (s1, f1) =>
          match run s1 es' with
          | None => None
          | Some (s2, f2) => Some (s2, f1 ++ f2)
          end
      end
  end.

Fixpoint count_emits (fs : list effect) : nat :=
  match fs with
  | [] => 0
  | Emit _ :: fs' => S (count_emits fs')
  | _ :: fs' => count_emits fs'
  end.

End WebPage.

(** ** Python exceptions and fallible code

    An exception is its class name and [str(e)].  Every exception raised by
    the collaborators below (urllib, Qt PDF) is an [Exception] subclass. *)

Inductive exn := Exn (cls : string) (msg : string).

Definition str_exn (e : exn) : string := match e with Exn _ m => m end.

Inductive res (A : Type) := Ok (a : A) | Raise (e : exn).
Arguments Ok {A} a.
Arguments Raise {A} e.

Definition res_bind {A B : Type} (m : res A) (k : A -> res B) : res B :=
  match m with Ok a => k a | Raise e => Raise e end.

Notation "x <- m ;; k" := (res_bind m (fun x => k))
  (at level 61, m at next level, right associativity).

Fixpoint res_map {A B : Type} (f : A -> res B) (l : list A) : res (list B) :=
  match l with
  | [] => Ok []
  | a :: l' => b <- f a ;; bs <- res_map f l' ;; Ok (b :: bs)
  end.

(** ** Python [str] operations on ASCII strings *)

Module Str.

Definition ch (n : nat) : ascii := ascii_of_nat n.

Fixpoint find_char (c : ascii) (s : string) : option nat :=
  match s with
  | EmptyString => None
  | String x s' => if Ascii.eqb x c then Some 0 else option_map S (find_char c s')
  end.

(** [c in s] *)
Definition has_char (c : ascii) (s : string) : bool :=
  match find_char c s with Some _ => true | None => false end.

Fixpoint take (n : nat) (s : string) : string :=
  match n, s with
  | O, _ | _, EmptyString => EmptyString
  | S n', String x s' => String x (take n' s')
  end.

Fixpoint drop (n : nat) (s : string) : string :=
  match n, s with
  | O, _ => s
  | _, EmptyString => EmptyString
  | S n', String _ s' => drop n' s'
  end.

(** [s.split(c, 1)] when [c in s] *)
Definition split_once (c : ascii) (s : string) : option (string * string) :=
  match find_char c s with
  | Some i => Some (take i s, drop (S i) s)
  | None => None
  end.

(** [s.find(c, start)] *)
Definition find_from (c : ascii) (start : nat) (s : string) : option nat :=
  option_map (Nat.add start) (find_char c (drop start s)).

(** [s.rfind(c)] *)
Fixpoint rfind_char (c : ascii) (s : string) : option nat :=
  match s with
  | EmptyString => None
  | String x s' =>
      match rfind_char c s' with
      | Some i => Some (S i)
      | None => if Ascii.eqb x c then Some 0 else None
      end
  end.

Definition is_upper (c : ascii) : bool :=
  (65 <=? nat_of_ascii c)%nat && (nat_of_ascii c <=? 90)%nat.
Definition is_lower (c : ascii) : bool :=
  (97 <=? nat_of_ascii c)%nat && (nat_of_ascii c <=? 122)%nat.
Definition is_alpha (c : ascii) : bool := is_upper c || is_lower c.
Definition is_digit (c : ascii) : bool :=
  (48 <=? nat_of_ascii c)%nat && (nat_of_ascii c <=? 57)%nat.

Definition lower_char (c : ascii) : ascii :=
  if is_upper c then ascii_of_nat (nat_of_ascii c + 32) else c.

(** [s.lower()] *)
Fixpoint lower (s : string) : string :=
  match s with
  | EmptyString => EmptyString
  | String x s' => String (lower_char x) (lower s')
  end.

(** [s.rstrip(c)] *)
Fixpoint rstrip_char (c : ascii) (s : string) : string :=
  match s with
  | EmptyString => EmptyString
  | String x s' =>
      let r := rstrip_char c s' in
      match r with
      | EmptyString => if Ascii.eqb x c then EmptyString else String x EmptyString
      | _ => String x r
      end
  end.

Fixpoint rev_str (s : string) : string :=
  match s with
  | EmptyString => EmptyString
  | String x s' => (rev_str s' ++ String x EmptyString)%string
  end.

(** [s.endswith(suf)] *)
Definition endswith (s suf : string) : bool := String.prefix (rev_str suf) (rev_str s).

(** [needle in hay] *)
Fixpoint contains (needle hay : string) : bool :=
  String.prefix needle hay ||
  match hay with
  | EmptyString => false
  | String _ hay' => contains needle hay'
  end.

(** [sep.join(parts)] *)
Fixpoint join (sep : string) (parts : list string) : string :=
  match parts with
  | [] => EmptyString
  | [p] => p
  | p :: ps => (p ++ sep ++ join sep ps)%string
  end.

(** [posixpath.basename]: [p[p.rfind('/') + 1:]] *)
Definition basename (p : string) : string :=
  match rfind_char "/" p with
  | Some i => drop (S i) p
  | None => p
  end.

(** [x in (a, b, ...)] on strings *)
Definition in_strs (x : string) (l : list string) : bool :=
  existsb (String.eqb x) l.

(** [if s:] *)
Definition truthy (s : string) : bool := negb (String.eqb s "").

End Str.

(** ** [urllib.parse.urlparse] (CPython 3.12, ASCII input)

    The validation of a netloc that contains both brackets
    ([_check_bracketed_netloc], which calls [ipaddress]) is kept abstract as
    [check_netloc]: it returns the [ValueError] it raises, if any.  On ASCII
    input [_checknetloc] never raises. *)

Module UrlParse.

Record ParseResult := mkParse {
  scheme : string;
  netloc : string;
  path : string;
  params : string;
  query : string;
  fragment : string
}.

(** [url.lstrip(_WHATWG_C0_CONTROL_OR_SPACE)] *)
Fixpoint lstrip_c0 (s : string) : string :=
  match s with
  | EmptyString => EmptyString
  | String x s' => if (nat_of_ascii x <=? 32)%nat then lstrip_c0 s' else s
  end.

(** removal of [_UNSAFE_URL_BYTES_TO_REMOVE = ['\t', '\r', '\n']] *)
Fixpoint remove_unsafe (s : string) : string :=
  match s with
  | EmptyString => EmptyString
  | String x s' =>
      let n := nat_of_ascii x in
      if (n =? 9)%nat || (n =? 10)%nat || (n =? 13)%nat then remove_unsafe s'
      else String x (remove_unsafe s')
  end.

Definition scheme_char (c : ascii) : bool :=
  Str.is_alpha c || Str.is_digit c || Ascii.eqb c "+" || Ascii.eqb c "-"
  || Ascii.eqb c ".".

Definition first_is_alpha (s : string) : bool :=
  match s with String x _ => Str.is_alpha x | EmptyString => false end.

Fixpoint all_chars (p : ascii -> bool) (s : string) : bool :=
  match s with
  | EmptyString => true
  | String x s' => p x && all_chars p s'
  end.

(** [i = url.find(':')]; [if i > 0 and url[0].isascii() and url[0].isalpha()]
    and every character of [url[:i]] is a scheme character. *)
Definition split_scheme (u : string) : string * string :=
  match Str.find_char ":" u with
  | Some (S _ as i) =>
      if first_is_alpha u && all_chars scheme_char (Str.take i u)
      then (Str.lower (Str.take i u), Str.drop (S i) u)
      else (EmptyString, u)
  | _ => (EmptyString, u)
  end.

(** [_splitnetloc(url, 2)] applied to [url[2:]]: the netloc ends at the first
    of ['/', '?', '#']. *)
Fixpoint split_netloc (s : string) : string * string :=
  match s with
  | EmptyString => (EmptyString, EmptyString)
  | String x s' =>
      if Ascii.eqb x "/" || Ascii.eqb x "?" || Ascii.eqb x "#" then (EmptyString, s)
      else let '(n, r) := split_netloc s' in (String x n, r)
  end.

Definition invalid_ipv6 : exn := Exn "ValueError" "Invalid IPv6 URL".

Definition netloc_part (check_netloc : string -> option exn) (u : string)
  : res (string * string) :=
  if String.prefix "//" u then
    let '(nl, rest) := split_netloc (Str.drop 2 u) in
    let lb := Str.has_char "[" nl in
    let rb := Str.has_char "]" nl in
    if (lb && negb rb) || (rb && negb lb) then Raise invalid_ipv6
    else if lb && rb then
      match check_netloc nl with
      | Some e => Raise e
      | None => Ok (nl, rest)
      end
    else Ok (nl, rest)
  else Ok (EmptyString, u).

Definition split_or (c : ascii) (s : string) : string * string :=
  match Str.split_once c s with Some p => p | None => (s, EmptyString) end.

Definition uses_params : list string :=
  [""%string; "ftp"%string; "hdl"%string; "prospero"%string; "http"%string; "imap"%string; "https"%string; "shttp"%string; "rtsp"%string;
   "rtsps"%string; "rtspu"%string; "sip"%string; "sips"%string; "mms"%string; "sftp"%string; "tel"%string].

(** [_splitparams] *)
Definition splitparams (u : string) : string * string :=
  let i :=
    if Str.has_char "/" u then
      match Str.rfind_char "/" u with
      | Some j => Str.find_from ";" j u
      | None => None
      end
    else Str.find_char ";" u in
  match i with
  | Some i => (Str.take i u, Str.drop (S i) u)
  | None => (u, EmptyString)
  end.

(** [urlsplit] followed by the [params] split of [urlparse]. *)
Definition urlparse (check_netloc : string -> option exn) (u0 : string)
  : res ParseResult :=
  let u1 := remove_unsafe (lstrip_c0 u0) in
  let '(sch, u2) := split_scheme u1 in
  nr <- netloc_part check_netloc u2 ;;
  let '(nl, u3) := nr in
  let '(u4, frag) := split_or "#" u3 in
  let '(u5, q) := split_or "?" u4 in
  let '(p, prm) :=
    if Str.in_strs sch uses_params && Str.has_char ";" u5
    then splitparams u5 else (u5, EmptyString) in
  Ok (mkParse sch nl p prm q frag).

End UrlParse.

(** ** The collaborators of [_detect_pdf] and [extract_pdf]: urllib and Qt PDF *)

Inductive PdfStatus := Null | Loading | Ready | Unloading | Error.

(** [QPdfDocument.Status.name] *)
Definition status_name (s : PdfStatus) : string :=
  match s with
  | Null => "Null" | Loading => "Loading" | Ready => "Ready"
  | Unloading => "Unloading" | Error => "Error"
  end.

(** A [QPdfDocument] after [load]: its status and, per page, the outcome of
    [doc.getAllText(i).text()]; [pageCount()] is the number of pages. *)
Record PdfDoc := mkDoc {
  doc_status : PdfStatus;
  doc_pages : list (res string)
}.

Record Env := mkEnv {
  (** [_check_bracketed_netloc] of urllib.parse *)
  check_netloc : string -> option exn;
  (** [urlopen(Request(url, method="HEAD"), timeout)] with the optional
      User-Agent header, then [resp.headers.get("Content-Type")] *)
  head_content_type : string -> option string -> Z -> res (option string);
  (** [urlopen(Request(url), timeout)] with the optional User-Agent header,
      then [resp.read()] *)
  fetch : string -> option string -> Z -> res string;
  (** [doc.load(QBuffer(QByteArray(data)))] *)
  load_buffer : string -> PdfDoc;
  (** [doc.load(local_path)] *)
  load_path : string -> PdfDoc
}.

(** The header actually added: [if user_agent: req.add_header(...)]. *)
Definition ua_header (ua : option string) : option string :=
  match ua with
  | Some u => if Str.truthy u then Some u else None
  | None => None
  end.

(** ** [_detect_pdf] (extractor.py, lines 46-73) *)

Definition detect_pdf (env : Env) (u : string) (user_agent : option string)
  (timeout : Z) : res bool :=
  parsed <- UrlParse.urlparse (check_netloc env) u ;;
  let p := Str.lower (Str.rstrip_char "/" (UrlParse.path parsed)) in
  if Str.endswith p ".pdf" then Ok true
  else if negb (Str.in_strs (UrlParse.scheme parsed) ["http"%string; "https"%string]) then Ok false
  else
    match head_content_type env u (ua_header user_agent) timeout with
    | Ok ct =>
        let ct := match ct with Some c => c | None => EmptyString end in
        Ok (Str.contains "application/pdf" (Str.lower ct))
    | Raise _ => Ok false
    end.

(** ** [QtWebExtractor.extract_pdf] (extractor.py, lines 278-320)

    The body of the [try] mutates [result] in place; an exception leaves the
    mutations made so far.  It is written in a state-and-exception monad over
    the result object. *)

Definition PM (A : Type) := ExtractionResult -> ExtractionResult * res A.

Definition pm_ret {A} (a : A) : PM A := fun r => (r, Ok a).
Definition pm_lift {A} (m : res A) : PM A := fun r => (r, m).
Definition pm_bind {A B} (m : PM A) (k : A -> PM B) : PM B :=
  fun r => match m r with
           | (r1, Ok a) => k a r1
           | (r1, Raise e) => (r1, Raise e)
           end.
Definition pm_modify (f : ExtractionResult -> ExtractionResult) : PM unit :=
  fun r => (f r, Ok tt).

Notation "x <-- m ;;; k" := (pm_bind m (fun x => k))
  (at level 61, m at next level, right associativity).

Record Extractor := mkExtractor {
  timeout_ms : Z;
  user_agent : option string;
  profile_alive : bool   (* [self._profile is not None] *)
}.

Definition nn : string := String (Str.ch 10) (String (Str.ch 10) EmptyString).

(** [doc = QPdfDocument()] and the [if parsed.scheme in (...)] branch: the
    document after [doc.load]. *)
Definition open_pdf (env : Env) (ex : Extractor) (url_or_path : string)
  (parsed : UrlParse.ParseResult) : res PdfDoc :=
  if Str.in_strs (UrlParse.scheme parsed) ["http"%string; "https"%string; "ftp"%string] then
    data <- fetch env url_or_path (ua_header (user_agent ex)) (Z.div (timeout_ms ex) 1000) ;;
    Ok (load_buffer env data)
  else
    let local_path :=
      if String.eqb (UrlParse.scheme parsed) "file" then UrlParse.path parsed
      else url_or_path in
    Ok (load_path env local_path).

Definition extract_pdf_body (env : Env) (ex : Extractor) (url_or_path : string)
  : PM unit :=
  parsed <-- pm_lift (UrlParse.urlparse (check_netloc env) url_or_path) ;;;
  doc <-- pm_lift (open_pdf env ex url_or_path parsed) ;;;
  match doc_status doc with
  | Ready =>
      text_parts <-- pm_lift (res_map (fun x => x) (doc_pages doc)) ;;;
      _ <-- pm_modify (fun r => set_text r (Str.join nn text_parts)) ;;;
      pm_modify (fun r => set_title r (Str.basename url_or_path))
  | st =>
      pm_modify (fun r => set_error r ("Failed to load PDF: " ++ status_name st))
  end.

Definition extract_pdf (env : Env) (ex : Extractor) (url_or_path : string)
  : res ExtractionResult :=
  let result := set_url empty_result url_or_path in
  match extract_pdf_body env ex url_or_path result with
  | (r, Ok _) => Ok r
  | (r, Raise e) => Ok (set_error r (str_exn e))   (* except Exception as e *)
  end.

(** Sample environments for the concrete runs below.  [offline_env]: every
    request raises [URLError], every document fails to load. *)
Definition url_error : exn := Exn "URLError" "<urlopen error [Errno -2] Name or service not known>".

Definition offline_env : Env :=
  mkEnv (fun _ => None) (fun _ _ _ => Raise url_error) (fun _ _ _ => Raise url_error)
    (fun _ => mkDoc Error []) (fun _ => mkDoc Error []).

(** [pdf_env]: every fetch returns the same bytes, which load as a three-page
    document. *)
Definition pdf_env : Env :=
  mkEnv (fun _ => None) (fun _ _ _ => Ok (Some "application/pdf"%string))
    (fun _ _ _ => Ok "%PDF-1.7"%string)
    (fun _ => mkDoc Ready [Ok "one"%string; Ok "two"%string; Ok "three"%string])
    (fun _ => mkDoc Error []).

(** ** [QtWebExtractor.extract] (extractor.py, lines 250-276)

    [loop.exec()] delivers events to the page until [on_done] has called
    [loop.quit()] (the loop returns once that handler returns), or until the
    application exits every running loop ([QCoreApplication.exit]). *)

Inductive LoopEvent :=
  | PageEvent (e : WebPage.event)
  | AppExit.

Fixpoint emitted (fs : list WebPage.effect) : list ExtractionResult :=
  match fs with
  | [] => []
  | WebPage.Emit r :: fs' => r :: emitted fs'
  | _ :: fs' => emitted fs'
  end.

Definition has_emit (fs : list WebPage.effect) : bool :=
  match emitted fs with [] => false | _ => true end.

(** [None]: the loop is still running after these events. *)
Fixpoint loop_exec (p : WebPage.state) (holder : list ExtractionResult)
  (evs : list LoopEvent) : option (list ExtractionResult) :=
  match evs with
  | [] => None
  | AppExit :: _ => Some holder
  | PageEvent e :: evs' =>
      match WebPage.step p e with
      | None => loop_exec p holder evs'        (* not deliverable: nothing happens *)
      | Some (p', fs) =>
          let holder' := holder ++ emitted fs in
          if has_emit fs then Some holder' else loop_exec p' holder' evs'
      end
  end.

Definition no_result_msg : string := "Extraction failed: no result received".

(** [return result_holder[0] if result_holder else _ExtractionResult(...)] *)
Definition extract_return (u : string) (holder : list ExtractionResult)
  : ExtractionResult :=
  match holder with
  | r :: _ => r
  | [] => mkResult u "" "" "" no_result_msg
  end.

Inductive outcome (A : Type) :=
  | Returned (a : A)
  | Raised (e : exn)
  | Blocked.
Arguments Returned {A} a.
Arguments Raised {A} e.
Arguments Blocked {A}.

Definition profile_assert : exn := Exn "AssertionError" "Profile has been cleaned up".

(** [_WebPage(self._profile, self._timeout_ms)]: [__init__] passes the
    timeout to [QTimer.setInterval], whose argument is a C [int]; Shiboken
    raises [OverflowError] for a Python int outside its range (the message is
    not modelled). *)
Definition c_int_ok (n : Z) : bool := (- 2 ^ 31 <=? n)%Z && (n <? 2 ^ 31)%Z.

Definition overflow_error : exn := Exn "OverflowError" "".

Definition new_web_page (timeout_ms : Z) : res WebPage.state :=
  if c_int_ok timeout_ms then Ok WebPage.new_page else Raise overflow_error.

(** [extract] up to [page.start_loading(url)]: the assertion on the profile,
    the construction of the page, then [start_loading]. *)
Definition extract_start (ex : Extractor) (u : string) : res WebPage.state :=
  if negb (profile_alive ex) then Raise profile_assert
  else
    p <- new_web_page (timeout_ms ex) ;;
    Ok (WebPage.start_loading u p).

Definition extract (ex : Extractor) (u : string) (evs : list LoopEvent)
  : outcome ExtractionResult :=
  match extract_start ex u with
  | Raise e => Raised e
  | Ok p =>
      match loop_exec p [] evs with
      | None => Blocked
      | Some holder => Returned (extract_return u holder)
      end
  end.

(** [_cleanup] releases the profile: [self._profile = None]. *)
Definition cleanup (ex : Extractor) : Extractor :=
  mkExtractor (timeout_ms ex) (user_agent ex) false.

(** ** The request handler (server.py, lines 94-163)

    [_Handler.timeout_s = timeout_ms // 1000 + 10]; [req.done.wait(timeout_s)]
    waits that many seconds.  [completion] is the time in ms, after [put],
    at which the dispatcher calls [req.done.set()] ([None]: never). *)

Definition handler_timeout_s (timeout_ms : Z) : Z := Z.div timeout_ms 1000 + 10.

Definition wait_done (timeout_s : Z) (completion : option Z) : bool :=
  match completion with
  | Some t => Z.leb t (1000 * timeout_s)
  | None => false
  end.

(** [_extract_one]: [req.result] is the dispatcher's result. *)
Definition extract_one (timeout_s : Z) (completion : option Z) (r : ExtractionResult)
  : option ExtractionResult :=
  if wait_done timeout_s completion then Some r else None.

Inductive json :=
  | JStr (s : string)
  | JObj (kvs : list (string * json))
  | JArr (l : list json).

Definition to_dict (r : ExtractionResult) : json :=
  JObj [("url", JStr (url r)); ("title", JStr (title r)); ("text", JStr (text r));
        ("html", JStr (html r)); ("error", JStr (error r))]%string.

Definition outer_timeout_msg : string := "extraction timed out".

(** Legacy [POST /extract]: status and body. *)
Definition extract_response (res : option ExtractionResult) : Z * json :=
  match res with
  | None => (504%Z, JObj [("error"%string, JStr outer_timeout_msg)])
  | Some r => (200%Z, to_dict r)
  end.

(** One document of the batch [POST /] reply. *)
Definition batch_document (u : string) (res : option ExtractionResult) : json :=
  match res with
  | None =>
      JObj [("page_content", JStr "");
            ("metadata", JObj [("source", JStr u); ("error", JStr outer_timeout_msg)])]%string
  | Some r =>
      JObj [("page_content", JStr (text r));
            ("metadata",
              JObj ([("source", JStr (if Str.truthy (url r) then url r else u));
                     ("title", JStr (title r))]
                    ++ (if Str.truthy (error r) then [("error", JStr (error r))] else [])))]%string
  end.

(** ** The dispatcher: [serve.poll_queue] (server.py, lines 166-229)

    [poll_queue] is the slot of a repeating [QTimer].  For a page job it calls
    [extract], whose [loop.exec()] runs a nested event loop inside the slot.
    Qt does not deliver a timer's event again while the previous delivery of
    that same timer is still running (QTimerInfoList::activateTimers marks it
    with [activateRef]), so while [poll_busy] holds the nested loop delivers
    page events but not the poll tick.  [frames] are the running nested loops,
    innermost first.  The log records [put], the start of processing
    ([extract_pdf] or [extract] called) and [req.done.set()] with the result.

    For a page job the slot raises before any nested loop runs when
    [extract_start] does (the profile was cleaned up, or the timeout does not
    fit a C [int]); the job has then begun but [req.done.set()] is never
    called. *)

Record Job := mkJob { jid : nat; jurl : string; jpdf : bool }.

Inductive LogEv :=
  | LPush (j : nat)
  | LBegin (j : nat)
  | LDone (j : nat) (r : ExtractionResult).

Record Frame := mkFrame {
  fjob : Job;
  fpage : WebPage.state;
  fholder : list ExtractionResult;
  fquit : bool
}.

Record Server := mkServer {
  queue : list (option Job);
  next_id : nat;
  shutting_down : bool;
  poll_active : bool;
  poll_busy : bool;
  frames : list Frame;
  log : list LogEv
}.

Inductive SEvent :=
  | Submit (u : string) (pdf : bool)     (* a handler's [extract_queue.put(req)] *)
  | Signal                               (* [handle_signal] *)
  | PollTick                             (* [poll_timer] fires: [poll_queue()] *)
  | PageEv (k : nat) (e : WebPage.event) (* an event for the page of frame [k] *)
  | LoopReturn.                          (* the innermost [loop.exec()] returns *)

Definition init_server : Server := mkServer [] 0 false true false [] [].

Fixpoint replace_nth {A : Type} (k : nat) (x : A) (l : list A) : list A :=
  match k, l with
  | _, [] => []
  | O, _ :: l' => x :: l'
  | S k', y :: l' => y :: replace_nth k' x l'
  end.

(** [on_done] for every emission: [result_holder.append(result)]; [loop.quit()]. *)
Definition deliver (f : Frame) (e : WebPage.event) : option Frame :=
  match WebPage.step (fpage f) e with
  | None => None
  | Some (p', fs) =>
      Some (mkFrame (fjob f) p' (fholder f ++ emitted fs) (fquit f || has_emit fs))
  end.

Section Dispatcher.
Variable env : Env.
Variable ex : Extractor.

Definition poll_queue (s : Server) : Server :=
  match queue s with
  | [] => s                                       (* queue.Empty *)
  | None :: q =>                                  (* poll_timer.stop(); app.quit() *)
      mkServer q (next_id s) (shutting_down s) false (poll_busy s) (frames s) (log s)
  | Some j :: q =>
      if jpdf j then
        match extract_pdf env ex (jurl j) with
        | Ok r =>
            mkServer q (next_id s) (shutting_down s) (poll_active s) (poll_busy s)
              (frames s) (log s ++ [LBegin (jid j)] ++ [LDone (jid j) r])
        | Raise _ =>                              (* the slot raises: no done.set() *)
            mkServer q (next_id s) (shutting_down s) (poll_active s) (poll_busy s)
              (frames s) (log s ++ [LBegin (jid j)])
        end
      else
        match extract_start ex (jurl j) with
        | Ok p =>
            mkServer q (next_id s) (shutting_down s) (poll_active s) true
              (mkFrame j p [] false :: frames s) (log s ++ [LBegin (jid j)])
        | Raise _ =>                              (* the slot raises: no done.set() *)
            mkServer q (next_id s) (shutting_down s) (poll_active s) (poll_busy s)
              (frames s) (log s ++ [LBegin (jid j)])
        end
  end.

Definition server_step (s : Server) (e : SEvent) : option Server :=
  match e with
  | Submit u pdf =>
      Some (mkServer (queue s ++ [Some (mkJob (next_id s) u pdf)]) (S (next_id s))
              (shutting_down s) (poll_active s) (poll_busy s) (frames s)
              (log s ++ [LPush (next_id s)]))
  | Signal =>
      if shutting_down s then Some s
      else Some (mkServer (queue s ++ [None]) (next_id s) true (poll_active s)
                   (poll_busy s) (frames s) (log s))
  | PollTick =>
      if poll_active s && negb (poll_busy s) then Some (poll_queue s) else None
  | PageEv k e =>
      match nth_error (frames s) k with
      | None => None
      | Some f =>
          match deliver f e with
          | None => None
          | Some f' =>
              Some (mkServer (queue s) (next_id s) (shutting_down s) (poll_active s)
                      (poll_busy s) (replace_nth k f' (frames s)) (log s))
          end
      end
  | LoopReturn =>
      match frames s with
      | f :: rest =>
          if fquit f then
            Some (mkServer (queue s) (next_id s) (shutting_down s) (poll_active s)
                    false rest
                    (log s ++ [LDone (jid (fjob f)) (extract_return (jurl (fjob f)) (fholder f))]))
          else None
      | [] => None
      end
  end.

Fixpoint server_run (s : Server) (es : list SEvent) : option Server :=
  match es with
  | [] => Some s
  | e :: es' =>
      match server_step s e with
      | None => None
      | Some s1 => server_run s1 es'
      end
  end.

End Dispatcher.

(** *** Views of the dispatcher state used by its invariant *)

(** Job ids waiting in the queue, in queue order. *)
Definition qids (q : list (option Job)) : list nat :=
  flat_map (fun o => match o with Some j => [jid j] | None => [] end) q.

(** Job ids in the order of their [put]. *)
Definition pushes (l : list LogEv) : list nat :=
  flat_map (fun e => match e with LPush j => [j] | _ => [] end) l.

(** Ids number the submissions in order; the queue holds the ids from [k] on,
    every id below [k] has begun; a begun job is done or is the job of a
    running nested loop; at most one nested loop runs, exactly while the
    poll slot is busy; and a job begins only after every earlier job is
    done. *)
Record dispatch_inv (s : Server) : Prop := {
  inv_push : pushes (log s) = seq 0 (next_id s);
  inv_queue : exists k, k <= next_id s /\ qids (queue s) = seq k (next_id s - k) /\
                (forall j, j < k -> In (LBegin j) (log s));
  inv_begin : forall j, In (LBegin j) (log s) ->
                (exists r, In (LDone j r) (log s)) \/
                (exists f, In f (frames s) /\ jid (fjob f) = j);
  inv_busy : (poll_busy s = false /\ frames s = []) \/
             (poll_busy s = true /\ exists f, frames s = [f]);
  inv_serial : forall a c j2, log s = a ++ LBegin j2 :: c ->
                 forall j1, j1 < j2 -> exists r, In (LDone j1 r) a
}.

(** A run of the dispatcher on two page jobs: both are submitted, the first
    is taken by the poll slot and completes on its load timeout, its nested
    loop returns, and the next poll takes the second. *)
Definition dispatch_trace : list SEvent :=
  [Submit "http://a/" false; Submit "http://b/" false; PollTick;
   PageEv 0 WebPage.TimeoutTimeout; PageEv 0 (WebPage.TextReady "t");
   PageEv 0 (WebPage.HtmlReady "h"); LoopReturn; PollTick].

Definition dispatch_final : Server :=
  match server_run offline_env (mkExtractor 30000 None true) init_server dispatch_trace with
  | Some s => s
  | None => init_server
  end.

(** ** Python whitespace and [str.strip()]

    Characters are code points below 256 (the latin-1 range that
    [http.server] decodes headers with); [str.isspace] holds on 9-13, 28-32,
    133 and 160 there. *)

Module PyStr.

Definition py_isspace (c : ascii) : bool :=
  let n := nat_of_ascii c in
  ((9 <=? n) && (n <=? 13))%nat || ((28 <=? n) && (n <=? 32))%nat
  || (n =? 133)%nat || (n =? 160)%nat.

(** [s.lstrip()] *)
Fixpoint lstrip_ws (s : string) : string :=
  match s with
  | EmptyString => EmptyString
  | String x s' => if py_isspace x then lstrip_ws s' else s
  end.

(** [s.rstrip()] *)
Fixpoint rstrip_ws (s : string) : string :=
  match s with
  | EmptyString => EmptyString
  | String x s' =>
      let r := rstrip_ws s' in
      match r with
      | EmptyString => if py_isspace x then EmptyString else String x EmptyString
      | _ => String x r
      end
  end.

(** [s.strip()] *)
Definition py_strip (s : string) : string := rstrip_ws (lstrip_ws s).

End PyStr.

(** ** Decoded JSON request bodies ([json.loads]) as Python values

    A JSON object becomes a [dict]; with a repeated key the last value wins.
    Of a float the handler only observes its truth value (false exactly for
    0.0 and -0.0). *)

Inductive pyval :=
  | PNone
  | PBool (b : bool)
  | PInt (n : Z)
  | PFloat (nonzero : bool)
  | PStr (s : string)
  | PList (l : list pyval)
  | PDict (kvs : list (string * pyval)).

(** [d.get(k)] on the dict built from the object members [kvs] *)
Fixpoint dict_get (k : string) (kvs : list (string * pyval)) : option pyval :=
  match kvs with
  | [] => None
  | (k', v) :: rest =>
      match dict_get k rest with
      | Some v' => Some v'
      | None => if String.eqb k' k then Some v else None
      end
  end.

Definition get_or (k : string) (kvs : list (string * pyval)) (dflt : pyval) : pyval :=
  match dict_get k kvs with Some v => v | None => dflt end.

(** [bool(v)] *)
Definition py_truthy (v : pyval) : bool :=
  match v with
  | PNone => false
  | PBool b => b
  | PInt n => negb (Z.eqb n 0)
  | PFloat nz => nz
  | PStr s => Str.truthy s
  | PList l => match l with [] => false | _ => true end
  | PDict kvs => match kvs with [] => false | _ => true end
  end.

Definition type_name (v : pyval) : string :=
  match v with
  | PNone => "NoneType" | PBool _ => "bool" | PInt _ => "int" | PFloat _ => "float"
  | PStr _ => "str" | PList _ => "list" | PDict _ => "dict"
  end.

(** [v.attr] on a value without that attribute *)
Definition no_attr (v : pyval) (attr : string) : exn :=
  Exn "AttributeError" ("'" ++ type_name v ++ "' object has no attribute '" ++ attr ++ "'").

(** [k in v] for a string [k] *)
Definition py_contains (k : string) (v : pyval) : res bool :=
  match v with
  | PDict kvs => Ok (match dict_get k kvs with Some _ => true | None => false end)
  | PList l => Ok (existsb (fun x => match x with PStr s => String.eqb s k | _ => false end) l)
  | PStr s => Ok (Str.contains k s)
  | _ => Raise (Exn "TypeError" ("argument of type '" ++ type_name v ++ "' is not iterable"))
  end.

(** ** [_Handler] (server.py, lines 45-163)

    A reply is the status and the JSON body given to [_send_json]. *)

Definition err_body (m : string) : json := JObj [("error"%string, JStr m)].

Definition unauthorized : Z * json := (401%Z, err_body "unauthorized").
Definition not_found : Z * json := (404%Z, err_body "not found").

(** [_check_auth]: [None] when it returns [True]; [Some rep] when it sends
    [rep] and returns [False].  [authorization] is the Authorization header. *)
Definition check_auth (api_key : string) (authorization : option string)
  : option (Z * json) :=
  if negb (Str.truthy api_key) then None
  else
    let auth := match authorization with Some a => a | None => EmptyString end in
    if String.prefix "Bearer " auth
       && String.eqb (PyStr.py_strip (Str.drop 7 auth)) api_key
    then None
    else Some unauthorized.

Definition do_GET (api_key : string) (authorization : option string) (path : string)
  : Z * json :=
  if String.eqb path "/health" then (200%Z, JObj [("status"%string, JStr "ok")])
  else
    match check_auth api_key authorization with
    | Some rep => rep
    | None => not_found
    end.

(** [_read_json_body]: [content_length] is the outcome of
    [int(self.headers.get("Content-Length", 0))], [loads] that of
    [json.loads(self.rfile.read(length))]. *)
Inductive body_read :=
  | BodyReply (rep : Z * json)   (* a 400 was sent; [None] is returned *)
  | Body (v : pyval).

Definition read_json_body (content_length : res Z) (loads : res pyval) : res body_read :=
  length <- content_length ;;
  if Z.eqb length 0 then Ok (BodyReply (400%Z, err_body "empty body"))
  else
    match loads with
    | Ok v => Ok (Body v)
    | Raise (Exn cls m) =>
        if String.eqb cls "JSONDecodeError" then Ok (BodyReply (400%Z, err_body "invalid JSON"))
        else Raise (Exn cls m)
    end.

(** The handler side of a request: [submit n u pdf] is what [_extract_one]
    returns for the [n]-th job this request puts on the queue.  The job's
    [pdf] field is read by [poll_queue] as [if req.pdf], so a submission is
    recorded with that truth value.  A request's outcome is the list of jobs
    it queued and its reply, or the exception that escapes [do_POST] (no
    reply is sent then). *)
Definition Submit_fn := nat -> string -> bool -> option ExtractionResult.

(** The [for url in urls] loop of the batch branch; [_is_pdf] is
    [_detect_pdf(url, user_agent=ua)] with its default timeout of 10 s. *)
Fixpoint batch_loop (env : Env) (ua : option string) (submit : Submit_fn) (n : nat)
  (urls : list pyval) : list (string * bool) * res (list json) :=
  match urls with
  | [] => ([], Ok [])
  | PStr s :: rest =>
      let u := PyStr.py_strip s in
      if negb (Str.truthy u) then batch_loop env ua submit n rest
      else
        match detect_pdf env u ua 10 with
        | Raise e => ([], Raise e)
        | Ok pdf =>
            let doc := batch_document u (submit n u pdf) in
            let '(subs, r) := batch_loop env ua submit (S n) rest in
            ((u, pdf) :: subs,
             match r with Ok docs => Ok (doc :: docs) | Raise e => Raise e end)
        end
  | v :: _ => ([], Raise (no_attr v "strip"))
  end.

(** The Open WebUI branch, entered when ["urls" in body]. *)
Definition batch_extract (env : Env) (ua : option string) (submit : Submit_fn) (body : pyval)
  : list (string * bool) * res (Z * json) :=
  match body with
  | PDict kvs =>
      match get_or "urls" kvs (PList []) with
      | PList ((_ :: _) as l) =>
          let '(subs, r) := batch_loop env ua submit 0 l in
          (subs, match r with Ok docs => Ok (200%Z, JArr docs) | Raise e => Raise e end)
      | _ => ([], Ok (400%Z, err_body "urls must be a non-empty array"))
      end
  | v => ([], Raise (no_attr v "get"))
  end.

(** The legacy [POST /extract] branch. *)
Definition legacy_extract (env : Env) (ua : option string) (submit : Submit_fn) (body : pyval)
  : list (string * bool) * res (Z * json) :=
  match body with
  | PDict kvs =>
      match get_or "url" kvs (PStr "") with
      | PStr s =>
          let u := PyStr.py_strip s in
          if negb (Str.truthy u) then ([], Ok (400%Z, err_body "url is required"))
          else
            let pdf :=
              match get_or "pdf" kvs PNone with
              | PNone => detect_pdf env u ua 10
              | v => Ok (py_truthy v)
              end in
            match pdf with
            | Raise e => ([], Raise e)
            | Ok b => ([(u, b)], Ok (extract_response (submit 0 u b)))
            end
      | v => ([], Raise (no_attr v "strip"))
      end
  | v => ([], Raise (no_attr v "get"))
  end.

Definition do_POST (env : Env) (ua : option string) (api_key : string)
  (authorization : option string) (path : string) (content_length : res Z)
  (loads : res pyval) (submit : Submit_fn) : list (string * bool) * res (Z * json) :=
  match check_auth api_key authorization with
  | Some rep => ([], Ok rep)
  | None =>
      match read_json_body content_length loads with
      | Raise e => ([], Raise e)
      | Ok (BodyReply rep) => ([], Ok rep)
      | Ok (Body body) =>
          let rest :=
            if String.eqb path "/extract" then legacy_extract env ua submit body
            else ([], Ok not_found) in
          if Str.in_strs path [""%string; "/"%string] then
            match py_contains "urls" body with
            | Raise e => ([], Raise e)
            | Ok true => batch_extract env ua submit body
            | Ok false => rest
            end
          else rest
      end
  end.

(** The documents of a batch reply for the jobs [subs], numbered from [n]. *)
Fixpoint documents (submit : Submit_fn) (n : nat) (subs : list (string * bool)) : list json :=
  match subs with
  | [] => []
  | (u, b) :: rest => batch_document u (submit n u b) :: documents submit (S n) rest
  end.

(** ** The command line (__main__.py) *)

Module Cli.

(** [s.split(c)[0]] *)
Definition split0 (c : ascii) (s : string) : string := fst (UrlParse.split_or c s).

(** [_is_pdf] *)
Definition is_pdf (url : string) (force : bool) : bool :=
  force || Str.endswith (split0 "#" (split0 "?" (Str.lower url))) ".pdf".

Definition known_cmds : list string := ["extract"%string; "serve"%string].

(** [next((a for a in sys.argv[1:] if not a.startswith("-")), None)] *)
Definition first_pos (args : list string) : option string :=
  find (fun a => negb (String.prefix "-" a)) args.

Inductive parser := BareUrlParser | SubcommandParser.

(** Which parser [main] builds for [sys.argv[1:]]. *)
Definition main_parser (args : list string) : parser :=
  match first_pos args with
  | Some a => if Str.truthy a && negb (Str.in_strs a known_cmds) then BareUrlParser
              else SubcommandParser
  | None => SubcommandParser
  end.

End Cli.

(** ** The Open WebUI tool (tool.py) *)

Module Tools.

Record Valves := mkValves { server_url : string; api_key : string }.

(** The request [_post] sends: its URL, the JSON payload (decoded by the
    server's [json.loads] into the same dict) and the Authorization header. *)
Record Request := mkRequest {
  req_url : string;
  req_payload : list (string * pyval);
  req_authorization : option string
}.

Definition post_request (v : Valves) (url : string) (pdf : option bool) : Request :=
  mkRequest (Str.rstrip_char "/" (server_url v) ++ "/extract")
    ([("url"%string, PStr url)] ++
     match pdf with Some b => [("pdf"%string, PBool b)] | None => [] end)
    (if Str.truthy (api_key v) then Some ("Bearer " ++ api_key v)%string else None).

(** [_emit]: the status events handed to the emitter, if there is one. *)
Definition emit (emitter : bool) (description : string) (is_done : bool)
  : list (string * bool) :=
  if emitter then [(description, is_done)] else [].

(** [post]: what [self._post(url)] returned (the reply of [POST /extract],
    [to_dict] of the result) or raised. *)
Definition fetch_page (emitter : bool) (url : string) (post : res ExtractionResult)
  : list (string * bool) * string :=
  let e0 := emit emitter ("Loading: " ++ url) false in
  match post with
  | Ok r =>
      let e1 :=
        if Str.truthy (error r) then emit emitter ("Done (warning: " ++ error r ++ ")") true
        else emit emitter ("Loaded: " ++ (if Str.truthy (title r) then title r else url)) true in
      (e0 ++ e1,
       if Str.truthy (title r) then ("# " ++ title r ++ nn ++ text r)%string else text r)
  | Raise e =>
      (e0 ++ emit emitter ("Error: " ++ str_exn e) true,
       ("Error fetching " ++ url ++ ": " ++ str_exn e)%string)
  end.

Definition fetch_page_html (emitter : bool) (url : string) (post : res ExtractionResult)
  : list (string * bool) * string :=
  let e0 := emit emitter ("Loading HTML: " ++ url) false in
  match post with
  | Ok r => (e0 ++ emit emitter ("Loaded: " ++ title r) true, html r)
  | Raise e =>
      (e0 ++ emit emitter ("Error: " ++ str_exn e) true,
       ("Error fetching " ++ url ++ ": " ++ str_exn e)%string)
  end.

Definition fetch_pdf (emitter : bool) (url : string) (post : res ExtractionResult)
  : list (string * bool) * string :=
  let e0 := emit emitter ("Loading PDF: " ++ url) false in
  match post with
  | Ok r =>
      let e1 :=
        if Str.truthy (error r) then emit emitter ("Done (warning: " ++ error r ++ ")") true
        else emit emitter ("Loaded PDF: " ++ (if Str.truthy (title r) then title r else url)) true in
      (e0 ++ e1,
       if Str.truthy (title r) then ("# " ++ title r ++ nn ++ text r)%string else text r)
  | Raise e =>
      (e0 ++ emit emitter ("Error: " ++ str_exn e) true,
       ("Error fetching PDF " ++ url ++ ": " ++ str_exn e)%string)
  end.

End Tools.

(** ** Qt objects owned by [QtWebExtractor] (extractor.py, lines 177-276)

    Objects are numbered.  [alive] are the objects [shiboken6.isValid]
    accepts; [deleted] logs every [shiboken6.delete].  The event loop of
    [extract] does not touch these fields. *)

Module Objects.

Record objs := mkObjs {
  pages : list nat;          (* [self._pages] *)
  profile : option nat;      (* [self._profile] *)
  alive : list nat;
  deleted : list nat;
  fresh : nat                (* the number of the next object created *)
}.

(** [QtWebExtractor.__init__]: the profile is object 0. *)
Definition init : objs := mkObjs [] (Some 0) [0] [] 1.

(** [if shiboken6.isValid(x): shiboken6.delete(x)] *)
Definition delete_if_valid (o : objs) (x : nat) : objs :=
  if existsb (Nat.eqb x) (alive o) then
    mkObjs (pages o) (profile o) (remove Nat.eq_dec x (alive o)) (deleted o ++ [x]) (fresh o)
  else o.

(** [list.remove(x)]: the first occurrence; the [ValueError] when [x] is
    absent is caught by [extract]. *)
Fixpoint remove_first (x : nat) (l : list nat) : list nat :=
  match l with
  | [] => []
  | y :: l' => if Nat.eqb x y then l' else y :: remove_first x l'
  end.

(** [_cleanup] *)
Definition cleanup (o : objs) : objs :=
  let o1 := fold_left delete_if_valid (pages o) o in
  let o2 := mkObjs [] (profile o1) (alive o1) (deleted o1) (fresh o1) in
  match profile o2 with
  | Some p =>
      let o3 := delete_if_valid o2 p in
      mkObjs (pages o3) None (alive o3) (deleted o3) (fresh o3)
  | None => o2
  end.

(** [extract]: the assertion, [_WebPage(...)], [self._pages.append(page)],
    then, after [loop.exec()], the deletion and [self._pages.remove(page)]. *)
Definition extract (o : objs) : res objs :=
  match profile o with
  | None => Raise profile_assert
  | Some _ =>
      let p := fresh o in
      let o1 := mkObjs (pages o ++ [p]) (profile o) (alive o ++ [p]) (deleted o) (S p) in
      let o2 := delete_if_valid o1 p in
      Ok (mkObjs (remove_first p (pages o2)) (profile o2) (alive o2) (deleted o2) (fresh o2))
  end.

Inductive op := OpExtract | OpCleanup.

(** A sequence of calls; a raising [extract] leaves the objects as they are. *)
Fixpoint run_ops (o : objs) (ops : list op) : objs :=
  match ops with
  | [] => o
  | OpExtract :: ops' =>
      match extract o with Ok o' => run_ops o' ops' | Raise _ => run_ops o ops' end
  | OpCleanup :: ops' => run_ops (cleanup o) ops'
  end.

End Objects.

(** The number of [None] (shutdown sentinels) in the queue. *)
Definition count_sentinels (q : list (option Job)) : nat :=
  length (filter (fun o => match o with None => true | Some _ => false end) q).

(** ** Lemmas on the page state machine *)

Module WebPageFacts.
Import WebPage.

Lemma step_settled (s s1 : state) (e : event) (f1 : list effect) :
  settled s = true -> step s e = Some (s1, f1) ->
  f1 = [] /\ settled s1 = true /\ result s1 = result s.
Proof.
  intros Hs Hstep.
  destruct e; simpl in Hstep;
    unfold on_timeout, on_html_ready in Hstep;
    unfold on_load_finished, extract_content, on_text_ready, finish in Hstep.
  - rewrite Hs in Hstep. injection Hstep as <- <-. auto.
  - destruct (stability_active s); [|discriminate]. simpl in Hstep.
    rewrite Hs in Hstep. injection Hstep as <- <-. auto.
  - destruct (timeout_active s); [|discriminate]. simpl in Hstep.
    rewrite Hs in Hstep. injection Hstep as <- <-. auto.
  - destruct (text_pending s); [discriminate|]. simpl in Hstep.
    rewrite Hs in Hstep. injection Hstep as <- <-. auto.
  - destruct (html_pending s); [discriminate|]. simpl in Hstep.
    rewrite Hs in Hstep. injection Hstep as <- <-. auto.
  - injection Hstep as <- <-. auto.
Qed.

Lemma step_unsettled (s s1 : state) (e : event) (f1 : list effect) :
  settled s = false -> step s e = Some (s1, f1) ->
  (settled s1 = false /\ count_emits f1 = 0 /\ forall r, ~ In (Emit r) f1)
  \/ (settled s1 = true /\ f1 = [Emit (result s1)]).
Proof.
  intros Hs Hstep.
  destruct e; simpl in Hstep;
    unfold on_timeout, on_html_ready in Hstep;
    unfold on_load_finished, extract_content, on_text_ready, finish in Hstep.
  - rewrite Hs in Hstep. injection Hstep as <- <-. left.
    destruct ok; simpl; repeat split; auto; intros r Hin; simpl in Hin; tauto.
  - destruct (stability_active s); [|discriminate]. simpl in Hstep.
    rewrite Hs in Hstep. injection Hstep as <- <-. left.
    simpl; repeat split; auto; intros r Hin; simpl in Hin; intuition discriminate.
  - destruct (timeout_active s); [|discriminate]. simpl in Hstep.
    rewrite Hs in Hstep. injection Hstep as <- <-. left.
    simpl; repeat split; auto; intros r Hin; simpl in Hin; intuition discriminate.
  - destruct (text_pending s); [discriminate|]. simpl in Hstep.
    rewrite Hs in Hstep. injection Hstep as <- <-. left.
    simpl; repeat split; auto; intros r Hin; simpl in Hin; intuition discriminate.
  - destruct (html_pending s); [discriminate|]. simpl in Hstep.
    rewrite Hs in Hstep. injection Hstep as <- <-. right. auto.
  - injection Hstep as <- <-. left. simpl; repeat split; auto; intros r Hin; simpl in Hin; tauto.
Qed.

Lemma run_settled (s s' : state) (es : list event) (f : list effect) :
  settled s = true -> run s es = Some (s', f) ->
  f = [] /\ settled s' = true /\ result s' = result s.
Proof.
  revert s s' f. induction es as [|e es IH]; intros s s' f Hs Hrun; simpl in Hrun.
  - injection Hrun as <- <-. auto.
  - destruct (step s e) as [[s1 f1]|] eqn:Hst; [|discriminate].
    destruct (run s1 es) as [[s2 f2]|] eqn:Hr; [|discriminate].
    injection Hrun as <- <-.
    destruct (step_settled _ _ _ _ Hs Hst) as (-> & Hs1 & Hr1).
    destruct (IH _ _ _ Hs1 Hr) as (-> & Hs2 & Hr2).
    rewrite Hr2, Hr1. auto.
Qed.

Lemma count_emits_app (f1 f2 : list effect) :
  count_emits (f1 ++ f2) = count_emits f1 + count_emits f2.
Proof.
  induction f1 as [|[] f1 IH]; simpl; auto.
Qed.

Lemma run_unsettled (s s' : state) (es : list event) (f : list effect) :
  settled s = false -> run s es = Some (s', f) ->
  count_emits f <= 1 /\
  (forall r, In (Emit r) f -> settled s' = true /\ result s' = r).
Proof.
  revert s s' f. induction es as [|e es IH]; intros s s' f Hs Hrun; simpl in Hrun.
  - injection Hrun as <- <-. simpl. split; [lia| intros r []].
  - destruct (step s e) as [[s1 f1]|] eqn:Hst; [|discriminate].
    destruct (run s1 es) as [[s2 f2]|] eqn:Hr; [|discriminate].
    injection Hrun as <- <-.
    destruct (step_unsettled _ _ _ _ Hs Hst) as [(Hs1 & Hc & Hn) | (Hs1 & ->)].
    + destruct (IH _ _ _ Hs1 Hr) as [Hc2 Hin2].
      rewrite count_emits_app, Hc. split; [lia|].
      intros r Hin. apply in_app_or in Hin as [Hin|Hin].
      * exfalso. exact (Hn r Hin).
      * auto.
    + destruct (run_settled _ _ _ _ Hs1 Hr) as (-> & Hs2 & Hr2).
      simpl. split; [lia|].
      intros r [Heq|[]]. injection Heq as <-. auto.
Qed.
End WebPageFacts.

(** ** The claims on the page state machine *)

Module PageClaims.
Import WebPage WebPageFacts.

Ltac page_step H :=
  simpl in H;
  unfold on_timeout, on_html_ready in H;
  unfold on_load_finished, extract_content, on_text_ready, finish in H.

(** C2: for every run of a page from [start_loading], [extraction_done] is
    emitted at most once; when it has been emitted the page is settled (Done)
    and its result is the emitted one, so no later callback changed it; and
    once settled, every further event is handled without effect on the
    result. *)
Theorem completion_fires_once (u : string) (es : list event) (s : state)
  (f : list effect) :
  run (start_loading u new_page) es = Some (s, f) ->
  count_emits f <= 1 /\
  (forall r, In (Emit r) f -> settled s = true /\ result s = r) /\
  (settled s = true -> forall e s' f', step s e = Some (s', f') ->
     f' = [] /\ result s' = result s).
Proof.
  intros Hrun.
  destruct (run_unsettled (start_loading u new_page) _ _ _ eq_refl Hrun) as [Hc Hin].
  split; [exact Hc|]. split; [exact Hin|].
  intros Hs e s' f' Hst.
  destruct (step_settled _ _ _ _ Hs Hst) as (-> & _ & ->). auto.
Qed.

Lemma completion_fires_once_witness :
  exists s f,
    run (start_loading "http://a/" new_page)
        [LoadFinished true; StabilityTimeout; TextReady "t"; HtmlReady "h"]
      = Some (s, f) /\
    count_emits f = 1 /\
    (count_emits f <= 1 /\
     (forall r, In (Emit r) f -> settled s = true /\ result s = r) /\
     (settled s = true -> forall e s' f', step s e = Some (s', f') ->
        f' = [] /\ result s' = result s)).
Proof.
  remember (run (start_loading "http://a/" new_page)
      [LoadFinished true; StabilityTimeout; TextReady "t"; HtmlReady "h"]) as o eqn:H.
  pose proof H as H'. vm_compute in H'. rewrite H' in H |- *.
  eexists; eexists. split; [reflexivity|]. split; [reflexivity|].
  exact (completion_fires_once _ _ _ _ (eq_sym H)).
Defined.

(** C3 (as stated, refuted): after the settle timer has started the
    extraction, the load timeout is still armed; when it fires before Done it
    runs [_extract_content] again, requesting the text a second time and
    overwriting the error with the timed-out message. *)
Lemma late_timeout_reenters_extraction :
  match run (start_loading "http://a/" new_page) [LoadFinished true; StabilityTimeout] with
  | Some (s1, f1) =>
      f1 = [ReqText] /\ timeout_active s1 = true /\ error (result s1) = ""%string /\
      match run s1 [TimeoutTimeout] with
      | Some (s2, f2) =>
          f2 = [ReqText] /\ settled s2 = false /\ text_pending s2 = 2 /\
          error (result s2) = timed_out_msg
      | None => False
      end
  | None => False
  end.
Proof.
  vm_compute. repeat split.
Qed.

(** C3 (amended): before Done, whichever timer fires starts an extraction
    pass, which requests the text again and overwrites the title and url
    with the page's current ones.  The load timeout cancels the settle timer
    and its pass sets the timed-out error; the settle timer's pass leaves the
    load timeout armed and sets the load-failure error only when no
    load-finished(true) has arrived, otherwise leaving the error unchanged; a
    load-finished signal re-arms the settle timer.  After Done (settled)
    every timer firing is ignored and leaves the result unchanged. *)
Theorem timer_race_first_pass (s : state) :
  (settled s = false ->
     (timeout_active s = true ->
        exists s', step s TimeoutTimeout = Some (s', [ReqText]) /\
          stability_active s' = false /\ timeout_active s' = false /\
          settled s' = false /\ text_pending s' = S (text_pending s) /\
          title (result s') = eng_title s /\ url (result s') = eng_url s /\
          error (result s') = timed_out_msg) /\
     (stability_active s = true ->
        exists s', step s StabilityTimeout = Some (s', [ReqText]) /\
          timeout_active s' = timeout_active s /\ settled s' = false /\
          text_pending s' = S (text_pending s) /\
          title (result s') = eng_title s /\ url (result s') = eng_url s /\
          error (result s') = (if load_ok s then error (result s) else load_failed_msg)) /\
     (forall ok, exists s', step s (LoadFinished ok) = Some (s', []) /\
          stability_active s' = true)) /\
  (settled s = true ->
     forall e s' f, (e = StabilityTimeout \/ e = TimeoutTimeout) ->
       step s e = Some (s', f) -> f = [] /\ result s' = result s).
Proof.
  split.
  - intros Hs. repeat split.
    + intros Ht. simpl. rewrite Ht. unfold on_timeout, extract_content. simpl.
      rewrite Hs. eexists. repeat split; simpl; auto.
    + intros Hst. simpl. rewrite Hst. unfold extract_content. simpl.
      rewrite Hs. eexists. repeat split; simpl; auto.
      all: destruct (load_ok s); reflexivity.
    + intros ok. simpl. unfold on_load_finished. rewrite Hs.
      destruct ok; eexists; split; reflexivity.
  - intros Hs e s' f He Hst.
    destruct (step_settled _ _ _ _ Hs Hst) as (-> & _ & ->). auto.
Qed.

Lemma timer_race_first_pass_witness :
  settled (start_loading "http://a/" new_page) = false /\
  timeout_active (start_loading "http://a/" new_page) = true /\
  exists s', step (start_loading "http://a/" new_page) TimeoutTimeout = Some (s', [ReqText]) /\
    stability_active s' = false /\ timeout_active s' = false /\
    settled s' = false /\ text_pending s' = S (text_pending (start_loading "http://a/" new_page)) /\
    title (result s') = eng_title (start_loading "http://a/" new_page) /\
    url (result s') = eng_url (start_loading "http://a/" new_page) /\
    error (result s') = timed_out_msg.
Proof.
  split; [reflexivity|]. split; [reflexivity|].
  destruct (timer_race_first_pass (start_loading "http://a/" new_page)) as [H _].
  exact (proj1 (H eq_refl) eq_refl).
Defined.

(** C4 (as stated, refuted): the load timeout fires first, before any
    extraction began; a load-finished(false) signal then re-arms the settle
    timer, whose extraction pass replaces the timed-out error, and the emitted
    result carries the load-failure error. *)
Lemma timeout_error_replaced_by_load_failure :
  match run (start_loading "http://a/" new_page)
          [TimeoutTimeout; LoadFinished false; StabilityTimeout; TextReady "t";
           HtmlReady "h"] with
  | Some (s, f) =>
      f = [ReqText; ReqText; ReqHtml; Emit (result s)] /\
      error (result s) = load_failed_msg
  | None => False
  end.
Proof.
  vm_compute. repeat split.
Qed.

(** C4 (amended): each extraction pass before Done sets the error: the pass
    of the load timeout to exactly the timed-out message; the pass of the
    settle timer to exactly the load-failure message when no
    load-finished(true) has arrived, and otherwise leaves it unchanged.  No
    other event writes the error, and the text and HTML callbacks that follow a
    pass still lead to Done with that error. *)
Theorem extraction_pass_error (s : state) :
  settled s = false ->
  (timeout_active s = true ->
     exists s', step s TimeoutTimeout = Some (s', [ReqText]) /\
       error (result s') = timed_out_msg) /\
  (stability_active s = true ->
     exists s', step s StabilityTimeout = Some (s', [ReqText]) /\
       error (result s') = (if load_ok s then error (result s) else load_failed_msg)) /\
  (forall e s' f, e <> StabilityTimeout -> e <> TimeoutTimeout ->
     step s e = Some (s', f) -> error (result s') = error (result s)) /\
  (forall t h n, text_pending s = S n ->
     exists s', run s [TextReady t; HtmlReady h] = Some (s', [ReqHtml; Emit (result s')]) /\
       settled s' = true /\ error (result s') = error (result s)).
Proof.
  intros Hs. split; [|split; [|split]].
  - intros Ht. simpl. rewrite Ht. unfold on_timeout, extract_content. simpl.
    rewrite Hs. eexists. split; reflexivity.
  - intros Hst. simpl. rewrite Hst. unfold extract_content. simpl.
    rewrite Hs. eexists. split; [reflexivity|].
    destruct (load_ok s); reflexivity.
  - intros e s' f H1 H2 Hstep. destruct e; try congruence; page_step Hstep.
    + rewrite Hs in Hstep. injection Hstep as <- <-. destruct ok; reflexivity.
    + destruct (text_pending s); [discriminate|]. simpl in Hstep.
      rewrite Hs in Hstep. injection Hstep as <- <-. reflexivity.
    + destruct (html_pending s); [discriminate|]. simpl in Hstep.
      rewrite Hs in Hstep. injection Hstep as <- <-. reflexivity.
    + injection Hstep as <- <-. reflexivity.
  - intros t h n Hn. simpl. rewrite Hn. unfold on_text_ready. simpl. rewrite Hs.
    unfold on_html_ready, finish. simpl. rewrite Hs. simpl.
    match goal with |- exists s', Some (?x, _) = _ /\ _ => exists x end.
    split; [reflexivity|]. split; reflexivity.
Qed.

Lemma extraction_pass_error_witness :
  settled (start_loading "http://a/" new_page) = false /\
  timeout_active (start_loading "http://a/" new_page) = true /\
  exists s', step (start_loading "http://a/" new_page) TimeoutTimeout = Some (s', [ReqText]) /\
    error (result s') = timed_out_msg.
Proof.
  split; [reflexivity|]. split; [reflexivity|].
  exact (proj1 (extraction_pass_error (start_loading "http://a/" new_page) eq_refl) eq_refl).
Defined.

(** C6 (as stated, refuted): after the settle timer's pass and its text
    callback, the still armed load timeout starts a second pass, which
    requests the text while the HTML request of the first pass is
    outstanding; the completion then carries the second text with the HTML
    answering the request issued before that text was stored. *)
Lemma text_requested_during_html :
  match run (start_loading "http://a/" new_page)
          [LoadFinished true; StabilityTimeout; TextReady "a"; TimeoutTimeout] with
  | Some (s1, f1) =>
      f1 = [ReqText; ReqHtml; ReqText] /\ settled s1 = false /\
      text_pending s1 = 1 /\ html_pending s1 = 1 /\
      match run s1 [TextReady "b"; HtmlReady "h1"] with
      | Some (s2, f2) =>
          f2 = [ReqHtml; Emit (result s2)] /\ settled s2 = true /\
          text (result s2) = "b"%string /\ html (result s2) = "h1"%string
      | None => False
      end
  | None => False
  end.
Proof.
  vm_compute. repeat split.
Qed.

(** C6 (amended): the HTML request is issued only by the text callback of
    an unsettled page, which stores the text in the same step; the text
    request is issued only by a timer's extraction pass; no step issues both;
    the completion is emitted only by the HTML callback, which stores the
    HTML and settles the page; and a freshly loading page has no request
    outstanding.  The chain is per pass: before Done the load timeout's pass
    requests the text again whatever HTML requests are still outstanding. *)
Theorem text_then_html_chain (s s' : state) (e : event) (f : list effect) :
  step s e = Some (s', f) ->
  (In ReqHtml f ->
     exists t, e = TextReady t /\ settled s = false /\ f = [ReqHtml] /\
       text (result s') = t) /\
  (In ReqText f ->
     f = [ReqText] /\ (e = StabilityTimeout \/ e = TimeoutTimeout)) /\
  (forall r, In (Emit r) f ->
     exists h, e = HtmlReady h /\ f = [Emit r] /\ html r = h /\ settled s' = true) /\
  (forall u, text_pending (start_loading u new_page) = 0 /\
             html_pending (start_loading u new_page) = 0) /\
  (settled s = false -> timeout_active s = true ->
     exists s1, step s TimeoutTimeout = Some (s1, [ReqText]) /\
       text_pending s1 = S (text_pending s) /\ html_pending s1 = html_pending s).
Proof.
  intros Hstep.
  split; [|split; [|split; [|split]]]; [| | |intros u; split; reflexivity|].
  4: { intros Hs Ht. simpl. rewrite Ht. unfold on_timeout, extract_content. simpl.
       rewrite Hs. eexists. repeat split. }
  all: destruct (settled s) eqn:Hs;
    [destruct (step_settled _ _ _ _ Hs Hstep) as (-> & _ & _);
     simpl; try (intros H; exfalso; exact H); try (intros r H; exfalso; exact H)|].
  all: destruct e; page_step Hstep;
    try (destruct (stability_active s); [|discriminate]);
    try (destruct (timeout_active s); [|discriminate]);
    try (destruct (text_pending s); [discriminate|]);
    try (destruct (html_pending s); [discriminate|]);
    simpl in Hstep; rewrite ?Hs in Hstep; injection Hstep as <- <-; simpl;
    try (intros H; exfalso; simpl in H; intuition discriminate);
    try (intros r H; exfalso; simpl in H; intuition discriminate).
  - intros _. exists t. auto.
  - intros _. auto.
  - intros _. auto.
  - intros r [H|[]]. injection H as <-. exists h. auto.
Qed.

Lemma text_then_html_chain_witness :
  step (with_text_pending (start_loading "http://a/" new_page) 1) (TextReady "t")
    = Some (with_html_pending
              (with_result (with_text_pending (start_loading "http://a/" new_page) 0)
                 (set_text (result (start_loading "http://a/" new_page)) "t")) 1,
            [ReqHtml]) /\
  exists t, TextReady "t" = TextReady t /\ settled (with_text_pending (start_loading "http://a/" new_page) 1) = false.
Proof.
  split; [reflexivity|].
  destruct (proj1 (text_then_html_chain
     (with_text_pending (start_loading "http://a/" new_page) 1) _ (TextReady "t") [ReqHtml]
     eq_refl) (or_introl eq_refl)) as (t & Ht & Hs & _ & _).
  exists t. auto.
Defined.

End PageClaims.

(** ** The claims on the handler, the PDF path, PDF detection and [extract] *)

Module ServiceClaims.
Local Open Scope Z_scope.

Lemma handler_bound_gt (tms : Z) : tms < 1000 * handler_timeout_s tms.
Proof.
  unfold handler_timeout_s.
  pose proof (Z.mod_pos_bound tms 1000 ltac:(lia)).
  pose proof (Z.div_mod tms 1000 ltac:(lia)).
  lia.
Qed.

(** C5: the handler's wait bound, [timeout_ms // 1000 + 10] seconds, is
    strictly longer than the page's load timeout of [timeout_ms] ms, for every
    configured value; and when the wait bound elapses without completion the
    caller gets the outer failure "extraction timed out" (status 504 on
    [/extract], an error document in the batch reply), not a result. *)
Theorem outer_wait_exceeds_page_timeout (tms : Z) :
  tms < 1000 * handler_timeout_s tms /\
  forall completion r u,
    wait_done (handler_timeout_s tms) completion = false ->
    extract_one (handler_timeout_s tms) completion r = None /\
    extract_response (extract_one (handler_timeout_s tms) completion r)
      = (504%Z, JObj [("error"%string, JStr "extraction timed out")]) /\
    batch_document u (extract_one (handler_timeout_s tms) completion r)
      = JObj [("page_content", JStr "");
              ("metadata", JObj [("source", JStr u);
                                 ("error", JStr "extraction timed out")])]%string.
Proof.
  split; [apply handler_bound_gt|].
  intros completion r u Hw. unfold extract_one. rewrite Hw. auto.
Qed.

Lemma outer_wait_exceeds_page_timeout_witness :
  wait_done (handler_timeout_s 30000) None = false /\
  extract_response (extract_one (handler_timeout_s 30000) None empty_result)
    = (504%Z, JObj [("error"%string, JStr "extraction timed out")]).
Proof.
  split; [reflexivity|].
  exact (proj1 (proj2 (proj2 (outer_wait_exceeds_page_timeout 30000)
                              None empty_result "u"%string eq_refl))).
Defined.

Lemma body_raise_keeps_text (env : Env) (ex : Extractor) (u : string) (e : exn) :
  snd (extract_pdf_body env ex u (set_url empty_result u)) = Raise e ->
  fst (extract_pdf_body env ex u (set_url empty_result u)) = set_url empty_result u.
Proof.
  unfold extract_pdf_body, pm_bind, pm_lift, pm_modify.
  destruct (UrlParse.urlparse (check_netloc env) u) as [p|e1]; [|auto].
  destruct (open_pdf env ex u p) as [doc|e2]; [|auto].
  destruct (doc_status doc); simpl; try discriminate.
  destruct (res_map (fun x => x) (doc_pages doc)); simpl; auto; discriminate.
Qed.

Lemma extract_pdf_ok (env : Env) (ex : Extractor) (u : string) :
  exists r, extract_pdf env ex u = Ok r.
Proof.
  unfold extract_pdf.
  destruct (extract_pdf_body env ex u (set_url empty_result u)) as [r [a|e]]; eauto.
Qed.

(** C7: [extract_pdf] never raises: it returns a result whose url is the
    source and whose html is empty; an exception raised in the [try] body
    (urlparse, fetch, Qt PDF) becomes the result's error, [str(e)], with text
    and html empty; a document that is not [Ready] gives the error
    "Failed to load PDF: <status>" with text and html empty. *)
Theorem extract_pdf_never_raises (env : Env) (ex : Extractor) (u : string) :
  (exists r, extract_pdf env ex u = Ok r /\ url r = u /\ html r = ""%string) /\
  (forall e, snd (extract_pdf_body env ex u (set_url empty_result u)) = Raise e ->
     extract_pdf env ex u = Ok (mkResult u "" "" "" (str_exn e))) /\
  (forall p doc, UrlParse.urlparse (check_netloc env) u = Ok p ->
     open_pdf env ex u p = Ok doc -> doc_status doc <> Ready ->
     extract_pdf env ex u
       = Ok (mkResult u "" "" "" ("Failed to load PDF: " ++ status_name (doc_status doc)))).
Proof.
  split; [|split].
  - unfold extract_pdf, extract_pdf_body, pm_bind, pm_lift, pm_modify.
    destruct (UrlParse.urlparse (check_netloc env) u) as [p|e1]; [|eauto].
    destruct (open_pdf env ex u p) as [doc|e2]; [|eauto].
    destruct (doc_status doc); simpl; eauto.
    destruct (res_map (fun x => x) (doc_pages doc)); simpl; eauto.
  - intros e He. unfold extract_pdf.
    pose proof (body_raise_keeps_text env ex u e He) as Hk.
    destruct (extract_pdf_body env ex u (set_url empty_result u)) as [r o].
    simpl in He, Hk. subst. reflexivity.
  - intros p doc Hp Hd Hst. unfold extract_pdf, extract_pdf_body, pm_bind, pm_lift.
    rewrite Hp, Hd.
    destruct (doc_status doc); [| | congruence | |]; reflexivity.
Qed.

Lemma extract_pdf_never_raises_witness :
  UrlParse.urlparse (check_netloc offline_env) "/tmp/a.pdf"
    = Ok (UrlParse.mkParse "" "" "/tmp/a.pdf" "" "" "") /\
  extract_pdf offline_env (mkExtractor 30000 None true) "/tmp/a.pdf"
    = Ok (mkResult "/tmp/a.pdf" "" "" "" "Failed to load PDF: Error").
Proof.
  split; [reflexivity|].
  apply (proj2 (proj2 (extract_pdf_never_raises offline_env (mkExtractor 30000 None true)
                         "/tmp/a.pdf")) (UrlParse.mkParse "" "" "/tmp/a.pdf" "" "" "")
           (mkDoc Error [])); try reflexivity.
  discriminate.
Defined.

Lemma res_map_id_ok (texts : list string) :
  res_map (fun x => x) (map Ok texts) = Ok texts.
Proof.
  induction texts as [|t ts IH]; simpl; auto. rewrite IH. reflexivity.
Qed.

(** C8: for a source that parses and opens as a [Ready] document whose n pages
    all give their text, [extract_pdf] returns the error "", the n page texts
    joined by two newlines, the title [os.path.basename] of the source and an
    empty html. *)
Theorem extract_pdf_success (env : Env) (ex : Extractor) (u : string)
  (p : UrlParse.ParseResult) (doc : PdfDoc) (texts : list string) :
  UrlParse.urlparse (check_netloc env) u = Ok p ->
  open_pdf env ex u p = Ok doc ->
  doc_status doc = Ready ->
  doc_pages doc = map Ok texts ->
  extract_pdf env ex u = Ok (mkResult u (Str.basename u) (Str.join nn texts) "" "") /\
  length texts = length (doc_pages doc).
Proof.
  intros Hp Hd Hst Hpg. split.
  - unfold extract_pdf, extract_pdf_body, pm_bind, pm_lift, pm_modify.
    rewrite Hp, Hd, Hst, Hpg, res_map_id_ok. reflexivity.
  - rewrite Hpg, length_map. reflexivity.
Qed.

Lemma extract_pdf_success_witness :
  extract_pdf pdf_env (mkExtractor 30000 None true) "https://example.com/doc.pdf"
    = Ok (mkResult "https://example.com/doc.pdf" "doc.pdf"
            (Str.join nn ["one"; "two"; "three"]%string) "" "").
Proof.
  refine (proj1 (extract_pdf_success pdf_env (mkExtractor 30000 None true)
                   "https://example.com/doc.pdf"
                   (UrlParse.mkParse "https" "example.com" "/doc.pdf" "" "" "")
                   (mkDoc Ready [Ok "one"%string; Ok "two"%string; Ok "three"%string])
                   ["one"; "two"; "three"]%string _ _ _ _)); reflexivity.
Defined.

(** C9 (as stated, refuted): [urlparse] runs outside the [try], so a URL it
    rejects makes [_detect_pdf] raise [ValueError]; and the [.pdf] suffix is
    checked before the scheme, so a [file:] URL ending in [.pdf] gives true. *)
Lemma detect_pdf_raises_and_suffix_first :
  detect_pdf offline_env "http://[x/a" None 10 = Raise UrlParse.invalid_ipv6 /\
  detect_pdf offline_env "file:///tmp/a.pdf" None 10 = Ok true.
Proof.
  split; reflexivity.
Qed.

(** C9 (amended): when [urlparse] rejects the URL, [_detect_pdf] raises its
    exception; otherwise it returns a boolean: true, whatever the network
    does, when the path (trailing slashes removed, lowercased) ends in
    [.pdf]; otherwise false when the scheme is not http or https; otherwise
    false when the HEAD request raises. *)
Theorem detect_pdf_on_parsed (env : Env) (u : string) (ua : option string)
  (timeout : Z) :
  (forall e, UrlParse.urlparse (check_netloc env) u = Raise e ->
     detect_pdf env u ua timeout = Raise e) /\
  (forall p, UrlParse.urlparse (check_netloc env) u = Ok p ->
    (exists b, detect_pdf env u ua timeout = Ok b) /\
    (Str.endswith (Str.lower (Str.rstrip_char "/" (UrlParse.path p))) ".pdf" = true ->
       forall env', check_netloc env' = check_netloc env ->
       detect_pdf env' u ua timeout = Ok true) /\
    (Str.endswith (Str.lower (Str.rstrip_char "/" (UrlParse.path p))) ".pdf" = false ->
       Str.in_strs (UrlParse.scheme p) ["http"; "https"]%string = false ->
       detect_pdf env u ua timeout = Ok false) /\
    (forall e,
       Str.endswith (Str.lower (Str.rstrip_char "/" (UrlParse.path p))) ".pdf" = false ->
       head_content_type env u (ua_header ua) timeout = Raise e ->
       detect_pdf env u ua timeout = Ok false)).
Proof.
  unfold detect_pdf. split.
  - intros e He. rewrite He. reflexivity.
  - intros p Hp. rewrite Hp. simpl. split; [|split; [|split]].
    + destruct (Str.endswith _ _); [eauto|].
      destruct (negb _); [eauto|].
      destruct (head_content_type env u (ua_header ua) timeout); eauto.
    + intros Hs env' Henv. rewrite Henv, Hp. simpl. rewrite Hs. reflexivity.
    + intros Hs Hsch. rewrite Hs, Hsch. reflexivity.
    + intros e Hs He. rewrite Hs. destruct (negb _); [reflexivity|].
      rewrite He. reflexivity.
Qed.

Lemma detect_pdf_on_parsed_witness :
  UrlParse.urlparse (check_netloc offline_env) "https://example.com/page"
    = Ok (UrlParse.mkParse "https" "example.com" "/page" "" "" "") /\
  detect_pdf offline_env "https://example.com/page" None 10 = Ok false.
Proof.
  split; [reflexivity|].
  refine (proj2 (proj2 (proj2 (proj2 (detect_pdf_on_parsed offline_env
            "https://example.com/page" None 10) _ eq_refl))) url_error eq_refl eq_refl).
Defined.

Lemma extract_start_ok (ex : Extractor) (u : string) :
  profile_alive ex = true -> c_int_ok (timeout_ms ex) = true ->
  extract_start ex u = Ok (WebPage.start_loading u WebPage.new_page).
Proof.
  intros Ha Hc. unfold extract_start, new_web_page. rewrite Ha, Hc. reflexivity.
Qed.

(** C10 (as stated, refuted): after [_cleanup] the profile is gone and
    [extract] raises [AssertionError] at its first statement.  (It also
    raises, [OverflowError], when the timeout does not fit a C [int].) *)
Lemma extract_after_cleanup_raises :
  extract (cleanup (mkExtractor 30000 None true)) "http://a/" [] = Raised profile_assert /\
  extract (mkExtractor (2 ^ 31) None true) "http://a/" [] = Raised overflow_error.
Proof.
  split; reflexivity.
Qed.

(** C10 (amended): while the extractor's profile is alive and its timeout
    fits a C [int], [extract] never raises: once its event loop has exited
    it returns the first emitted result, or, when the loop exited with none,
    the fallback result with the submitted url and "Extraction failed: no
    result received".  After [_cleanup] it raises [AssertionError]; with the
    profile alive and a timeout outside the C [int] range it raises
    [OverflowError]. *)
Theorem extract_returns_result (ex : Extractor) (u : string) (evs : list LoopEvent) :
  (profile_alive ex = true -> c_int_ok (timeout_ms ex) = true ->
   (forall e, extract ex u evs <> Raised e) /\
   (extract ex u evs = Blocked \/ exists r, extract ex u evs = Returned r) /\
   (loop_exec (WebPage.start_loading u WebPage.new_page) [] evs = Some [] ->
      extract ex u evs = Returned (mkResult u "" "" "" no_result_msg)) /\
   (forall r rest, loop_exec (WebPage.start_loading u WebPage.new_page) [] evs = Some (r :: rest) ->
      extract ex u evs = Returned r)) /\
  (profile_alive ex = false -> extract ex u evs = Raised profile_assert) /\
  (profile_alive ex = true -> c_int_ok (timeout_ms ex) = false ->
   extract ex u evs = Raised overflow_error).
Proof.
  split; [|split].
  - intros Ha Hc. unfold extract. rewrite (extract_start_ok ex u Ha Hc).
    split; [|split; [|split]].
    + intros e. destruct (loop_exec _ _ evs); discriminate.
    + destruct (loop_exec _ _ evs); eauto.
    + intros H. rewrite H. reflexivity.
    + intros r rest H. rewrite H. reflexivity.
  - intros Ha. unfold extract, extract_start. rewrite Ha. reflexivity.
  - intros Ha Hc. unfold extract, extract_start, new_web_page. rewrite Ha, Hc. reflexivity.
Qed.

Lemma extract_returns_result_witness :
  (profile_alive (mkExtractor 30000 None true) = true /\
   c_int_ok (timeout_ms (mkExtractor 30000 None true)) = true /\
   loop_exec (WebPage.start_loading "http://a/" WebPage.new_page) [] [AppExit] = Some []) /\
  extract (mkExtractor 30000 None true) "http://a/" [AppExit]
    = Returned (mkResult "http://a/" "" "" "" no_result_msg) /\
  extract (mkExtractor (2 ^ 31) None true) "http://a/" [AppExit] = Raised overflow_error.
Proof.
  split; [repeat split|split].
  - exact (proj1 (proj2 (proj2 (proj1 (extract_returns_result (mkExtractor 30000 None true)
                                  "http://a/" [AppExit]) eq_refl eq_refl))) eq_refl).
  - exact (proj2 (proj2 (extract_returns_result (mkExtractor (2 ^ 31) None true)
                           "http://a/" [AppExit])) eq_refl eq_refl).
Defined.

End ServiceClaims.

(** ** The dispatcher claim *)

Module DispatchClaims.

Lemma app_split_cons {A : Type} (l x a c : list A) (y : A) :
  l ++ x = a ++ y :: c ->
  (exists c', l = a ++ y :: c') \/ (exists m, a = l ++ m /\ x = m ++ y :: c).
Proof.
  intros H. apply app_eq_app in H as [m [[Hl Hx]|[Ha Hx]]].
  - destruct m as [|h m'].
    + right. exists []. rewrite app_nil_r in Hl. subst l. simpl in Hx.
      split; [symmetry; apply app_nil_r|symmetry; exact Hx].
    + left. injection Hx as -> ->. exists m'. exact Hl.
  - right. eauto.
Qed.

Lemma seq_app_cons (st n : nat) (x y : list nat) (j : nat) :
  seq st n = x ++ j :: y -> j = st + length x.
Proof.
  revert st n. induction x as [|h x IH]; intros st n H; destruct n; simpl in H;
    try discriminate.
  - injection H as H1 _. simpl. lia.
  - injection H as _ H. apply IH in H. simpl. lia.
Qed.

Lemma pushes_app (l1 l2 : list LogEv) : pushes (l1 ++ l2) = pushes l1 ++ pushes l2.
Proof. unfold pushes. apply flat_map_app. Qed.

Lemma qids_app (q1 q2 : list (option Job)) : qids (q1 ++ q2) = qids q1 ++ qids q2.
Proof. unfold qids. apply flat_map_app. Qed.

(** Appending events that contain no [LBegin] keeps the serial property. *)
Lemma serial_app_no_begin (l x : list LogEv) :
  (forall j, ~ In (LBegin j) x) ->
  (forall a c j2, l = a ++ LBegin j2 :: c -> forall j1, j1 < j2 -> exists r, In (LDone j1 r) a) ->
  forall a c j2, l ++ x = a ++ LBegin j2 :: c ->
    forall j1, j1 < j2 -> exists r, In (LDone j1 r) a.
Proof.
  intros Hx Hl a c j2 H. apply app_split_cons in H as [[c' Hc]|[m [Ha Hm]]].
  - exact (Hl _ _ _ Hc).
  - exfalso. apply (Hx j2). rewrite Hm. apply in_or_app. right. left. reflexivity.
Qed.

(** Appending [LBegin j :: x], with no other [LBegin] in [x], when every job
    below [j] is done. *)
Lemma serial_app_begin (l x : list LogEv) (j : nat) :
  (forall j', ~ In (LBegin j') x) ->
  (forall j1, j1 < j -> exists r, In (LDone j1 r) l) ->
  (forall a c j2, l = a ++ LBegin j2 :: c -> forall j1, j1 < j2 -> exists r, In (LDone j1 r) a) ->
  forall a c j2, l ++ LBegin j :: x = a ++ LBegin j2 :: c ->
    forall j1, j1 < j2 -> exists r, In (LDone j1 r) a.
Proof.
  intros Hx Hdone Hl a c j2 H. apply app_split_cons in H as [[c' Hc]|[m [Ha Hm]]].
  - exact (Hl _ _ _ Hc).
  - destruct m as [|h m'].
    + rewrite app_nil_r in Ha. subst a. injection Hm as -> _. exact Hdone.
    + exfalso. injection Hm as _ Hm. apply (Hx j2). rewrite Hm.
      apply in_or_app. right. left. reflexivity.
Qed.

Lemma inv_init : dispatch_inv init_server.
Proof.
  constructor; simpl.
  - reflexivity.
  - exists 0. split; [lia|]. split; [reflexivity|]. intros j Hj. lia.
  - intros j [].
  - left. auto.
  - intros a c j2 H. destruct a; discriminate.
Qed.

Lemma done_below (s : Server) (k : nat) :
  (forall j, In (LBegin j) (log s) ->
     (exists r, In (LDone j r) (log s)) \/ (exists f, In f (frames s) /\ jid (fjob f) = j)) ->
  frames s = [] ->
  (forall j, j < k -> In (LBegin j) (log s)) ->
  forall j1, j1 < k -> exists r, In (LDone j1 r) (log s).
Proof.
  intros Hbeg Hf Hk j1 Hj1.
  destruct (Hbeg j1 (Hk j1 Hj1)) as [Hd|[f [Hin _]]]; [exact Hd|].
  rewrite Hf in Hin. destruct Hin.
Qed.

Lemma step_inv (env : Env) (ex : Extractor) (s s' : Server) (e : SEvent) :
  profile_alive ex = true -> c_int_ok (timeout_ms ex) = true ->
  dispatch_inv s -> server_step env ex s e = Some s' -> dispatch_inv s'.
Proof.
  intros Ha Hc Hi Hst.
  destruct Hi as [Hpush [k [Hk [Hq Hkb]]] Hbeg Hbusy Hser].
  destruct e as [u pdf| | |kf ev|]; simpl in Hst.
  - (* Submit *)
    injection Hst as <-. constructor; cbn [log next_id queue frames poll_busy shutting_down poll_active].
    + rewrite pushes_app, Hpush, seq_S. reflexivity.
    + exists k. split; [lia|]. split.
      * rewrite qids_app, Hq.
        replace (S (next_id s) - k) with (S (next_id s - k)) by lia.
        rewrite seq_S. f_equal. simpl. f_equal. lia.
      * intros j Hj. apply in_or_app. left. auto.
    + intros j Hj. apply in_app_or in Hj as [Hj|[Hj|[]]]; [|discriminate].
      destruct (Hbeg j Hj) as [[r Hr]|Hf]; [left; exists r; apply in_or_app; auto|right; exact Hf].
    + exact Hbusy.
    + apply serial_app_no_begin; [|exact Hser].
      intros j [H|[]]. discriminate.
  - (* Signal *)
    destruct (shutting_down s); injection Hst as <-.
    + constructor; auto. exists k. auto.
    + constructor; cbn [log next_id queue frames poll_busy shutting_down poll_active]; auto.
      exists k. split; [lia|]. split; [|exact Hkb].
      rewrite qids_app, Hq. simpl. apply app_nil_r.
  - (* PollTick *)
    destruct (poll_active s && negb (poll_busy s)) eqn:Hact; [|discriminate].
    injection Hst as <-.
    assert (Hf : frames s = []).
    { destruct Hbusy as [[_ Hf]|[Hb _]]; [exact Hf|].
      rewrite Hb, andb_false_r in Hact. discriminate. }
    assert (Hnb : poll_busy s = false).
    { destruct (poll_busy s); [rewrite andb_false_r in Hact; discriminate|reflexivity]. }
    unfold poll_queue.
    destruct (queue s) as [|[j|] q] eqn:Hqs.
    + constructor; auto. exists k. rewrite Hqs. auto.
    + simpl in Hq.
      destruct (next_id s - k) as [|m] eqn:Hm; [discriminate|].
      simpl in Hq. injection Hq as Hjk Hq.
      assert (Hdone := done_below s k Hbeg Hf Hkb).
      destruct (jpdf j).
      * destruct (ServiceClaims.extract_pdf_ok env ex (jurl j)) as [r Hr]. rewrite Hr.
        constructor; cbn [log next_id queue frames poll_busy shutting_down poll_active].
        -- rewrite pushes_app, Hpush. simpl. apply app_nil_r.
        -- exists (S k). split; [lia|]. split.
           ++ replace (next_id s - S k) with m by lia. exact Hq.
           ++ intros j' Hj'. apply in_or_app.
              destruct (Nat.eq_dec j' k) as [->|Hne]; [right; left; rewrite Hjk; reflexivity|].
              left. apply Hkb. lia.
        -- intros j' Hj'. left. apply in_app_or in Hj' as [Hj'|Hj'].
           ++ destruct (Hbeg j' Hj') as [[r' Hr']|[f [Hin _]]].
              ** exists r'. apply in_or_app. auto.
              ** rewrite Hf in Hin. destruct Hin.
           ++ destruct Hj' as [Hj'|[Hj'|[]]]; [|discriminate].
              injection Hj' as <-. exists r. apply in_or_app. right. right. left. reflexivity.
        -- left. auto.
        -- apply serial_app_begin.
           ++ intros j' [H|[]]. discriminate.
           ++ rewrite Hjk. exact Hdone.
           ++ exact Hser.
      * rewrite (ServiceClaims.extract_start_ok ex (jurl j) Ha Hc).
        constructor; cbn [log next_id queue frames poll_busy shutting_down poll_active].
        -- rewrite pushes_app, Hpush. simpl. apply app_nil_r.
        -- exists (S k). split; [lia|]. split.
           ++ replace (next_id s - S k) with m by lia. exact Hq.
           ++ intros j' Hj'. apply in_or_app.
              destruct (Nat.eq_dec j' k) as [->|Hne]; [right; left; rewrite Hjk; reflexivity|].
              left. apply Hkb. lia.
        -- intros j' Hj'. apply in_app_or in Hj' as [Hj'|Hj'].
           ++ destruct (Hbeg j' Hj') as [[r' Hr']|[f [Hin _]]].
              ** left. exists r'. apply in_or_app. auto.
              ** rewrite Hf in Hin. destruct Hin.
           ++ destruct Hj' as [Hj'|[]]. injection Hj' as <-.
              right. eexists. split; [left; reflexivity|reflexivity].
        -- right. split; [reflexivity|]. rewrite Hf. eexists. reflexivity.
        -- apply serial_app_begin.
           ++ intros j' [].
           ++ rewrite Hjk. exact Hdone.
           ++ exact Hser.
    + constructor; cbn [log next_id queue frames poll_busy shutting_down poll_active]; auto.
      exists k. split; [lia|]. split; [exact Hq|exact Hkb].
  - (* PageEv *)
    destruct (nth_error (frames s) kf) as [f|] eqn:Hn; [|discriminate].
    destruct (deliver f ev) as [f'|] eqn:Hd; [|discriminate].
    injection Hst as <-.
    assert (Hjob : fjob f' = fjob f).
    { unfold deliver in Hd. destruct (WebPage.step (fpage f) ev) as [[p fs]|]; [|discriminate].
      injection Hd as <-. reflexivity. }
    destruct Hbusy as [[Hb Hf]|[Hb [f0 Hf]]].
    + rewrite Hf in Hn. destruct kf; discriminate.
    + rewrite Hf in Hn. destruct kf as [|kf]; [|destruct kf; discriminate].
      simpl in Hn. injection Hn as ->.
      constructor; cbn [log next_id queue frames poll_busy shutting_down poll_active]; auto.
      * exists k. auto.
      * rewrite Hf. simpl. intros j Hj.
        destruct (Hbeg j Hj) as [Hd'|[g [Hin Hg]]]; [left; exact Hd'|].
        right. exists f'. split; [left; reflexivity|].
        rewrite Hf in Hin. destruct Hin as [<-|[]]. rewrite Hjob. exact Hg.
      * right. rewrite Hf. split; [exact Hb|]. eexists. reflexivity.
  - (* LoopReturn *)
    destruct (frames s) as [|f rest] eqn:Hf; [discriminate|].
    destruct (fquit f); [|discriminate].
    injection Hst as <-.
    assert (Hrest : rest = [] /\ poll_busy s = true).
    { destruct Hbusy as [[_ H]|[Hb [f0 H]]]; [discriminate|].
      injection H as _ ->. auto. }
    destruct Hrest as [-> Hb].
    constructor; cbn [log next_id queue frames poll_busy shutting_down poll_active].
    + rewrite pushes_app, Hpush. simpl. apply app_nil_r.
    + exists k. split; [lia|]. split; [exact Hq|].
      intros j Hj. apply in_or_app. left. auto.
    + intros j Hj. left. apply in_app_or in Hj as [Hj|[Hj|[]]]; [|discriminate].
      destruct (Hbeg j Hj) as [[r Hr]|[g [Hin Hg]]].
      * exists r. apply in_or_app. auto.
      * destruct Hin as [<-|[]]. subst j. eexists. apply in_or_app. right. left. reflexivity.
    + left. auto.
    + apply serial_app_no_begin; [|exact Hser].
      intros j [H|[]]. discriminate.
Qed.

Lemma run_inv (env : Env) (ex : Extractor) (tr : list SEvent) (s s' : Server) :
  profile_alive ex = true -> c_int_ok (timeout_ms ex) = true ->
  dispatch_inv s -> server_run env ex s tr = Some s' -> dispatch_inv s'.
Proof.
  intros Ha Hc. revert s. induction tr as [|e tr IH]; intros s Hi Hr; simpl in Hr.
  - injection Hr as <-. exact Hi.
  - destruct (server_step env ex s e) as [s1|] eqn:Hs; [|discriminate].
    exact (IH s1 (step_inv env ex s s1 e Ha Hc Hi Hs) Hr).
Qed.
(** C1 (as stated, refuted): with a timeout of 2^31 ms, which [--timeout]
    accepts, constructing the page raises [OverflowError] in the poll slot.
    Job 0 has begun but never reaches Done, and the next tick begins job 1. *)
Lemma fifo_broken_by_timeout_overflow :
  server_run offline_env (mkExtractor (2 ^ 31) None true) init_server
    [Submit "http://a/" false; Submit "http://b/" false; PollTick; PollTick]
  = Some (mkServer [] 2 false true false [] [LPush 0; LPush 1; LBegin 0; LBegin 1]).
Proof.
  vm_compute. reflexivity.
Qed.

(** C1 (amended).  When the extractor's profile is alive (as in [serve],
    which never cleans it up while serving) and the configured timeout fits a
    C [int], on every reachable dispatcher state: jobs are pushed with
    increasing ids, i.e. in submission order; whenever the poll slot begins
    a job (its extraction or its page state machine), every job pushed
    before it has already reached Done (its [LDone] is earlier in the log);
    and at most one nested [loop.exec()], hence at most one page, is in
    flight.  The poll slot is not re-entered from the nested event loop of
    [extract], since Qt does not deliver a timer's timeout again while its
    slot for that timer is still running. *)
Theorem dispatcher_fifo_serial (env : Env) (ex : Extractor) (tr : list SEvent) (s : Server) :
  profile_alive ex = true -> c_int_ok (timeout_ms ex) = true ->
  server_run env ex init_server tr = Some s ->
  (forall a b c j1 j2, log s = a ++ LPush j1 :: b ++ LPush j2 :: c -> j1 < j2) /\
  (forall a c j2, log s = a ++ LBegin j2 :: c ->
     forall j1, j1 < j2 -> exists r, In (LDone j1 r) a) /\
  length (frames s) <= 1.
Proof.
  intros Ha Hc Hr. pose proof (run_inv env ex tr init_server s Ha Hc inv_init Hr) as Hi.
  split; [|split].
  - intros a b c j1 j2 Hl.
    pose proof (inv_push s Hi) as Hp. rewrite Hl in Hp.
    rewrite pushes_app in Hp. simpl in Hp. rewrite pushes_app in Hp. simpl in Hp.
    symmetry in Hp.
    pose proof Hp as Hp1. apply seq_app_cons in Hp1.
    replace (pushes a ++ j1 :: pushes b ++ j2 :: pushes c)
      with ((pushes a ++ j1 :: pushes b) ++ j2 :: pushes c) in Hp
      by (rewrite <- app_assoc; reflexivity).
    apply seq_app_cons in Hp. rewrite length_app in Hp. simpl in Hp. lia.
  - exact (inv_serial s Hi).
  - destruct (inv_busy s Hi) as [[_ ->]|[_ [f ->]]]; simpl; lia.
Qed.

Lemma dispatcher_fifo_serial_witness :
  (profile_alive (mkExtractor 30000 None true) = true /\
   c_int_ok (timeout_ms (mkExtractor 30000 None true)) = true /\
   server_run offline_env (mkExtractor 30000 None true) init_server dispatch_trace
     = Some dispatch_final) /\
  length (frames dispatch_final) <= 1.
Proof.
  assert (H : server_run offline_env (mkExtractor 30000 None true) init_server dispatch_trace
                = Some dispatch_final) by (vm_compute; reflexivity).
  split; [split; [reflexivity|split; [reflexivity|exact H]]|].
  exact (proj2 (proj2 (dispatcher_fifo_serial offline_env (mkExtractor 30000 None true)
                         dispatch_trace dispatch_final eq_refl eq_refl H))).
Defined.

End DispatchClaims.

(** ** Properties of the rest of the code *)

Module ExtraFacts.

(** *** Strings *)

Lemma str_app_nil (a : string) : (a ++ EmptyString)%string = a.
Proof. induction a as [|x a IH]; simpl; [reflexivity|]. rewrite IH. reflexivity. Qed.

Lemma str_app_assoc (a b c : string) : ((a ++ b) ++ c)%string = (a ++ b ++ c)%string.
Proof. induction a as [|x a IH]; simpl; [reflexivity|]. rewrite IH. reflexivity. Qed.

Lemma has_char_false (c : ascii) (s : string) :
  Str.has_char c s = false -> Str.find_char c s = None.
Proof. unfold Str.has_char. destruct (Str.find_char c s); congruence. Qed.

Lemma lower_app (a b : string) : Str.lower (a ++ b) = (Str.lower a ++ Str.lower b)%string.
Proof. induction a as [|x a IH]; simpl; [reflexivity|]. rewrite IH. reflexivity. Qed.

Lemma lower_char_qmark (x : ascii) :
  Ascii.eqb (Str.lower_char x) "?" = Ascii.eqb x "?".
Proof. destruct x as [[] [] [] [] [] [] [] []]; reflexivity. Qed.

Lemma lower_char_hash (x : ascii) :
  Ascii.eqb (Str.lower_char x) "#" = Ascii.eqb x "#".
Proof. destruct x as [[] [] [] [] [] [] [] []]; reflexivity. Qed.

Lemma find_char_lower (c : ascii) (s : string) :
  (forall x, Ascii.eqb (Str.lower_char x) c = Ascii.eqb x c) ->
  Str.find_char c (Str.lower s) = Str.find_char c s.
Proof.
  intros Hc. induction s as [|x s IH]; simpl; [reflexivity|].
  rewrite Hc, IH. reflexivity.
Qed.

Lemma split0_cons_other (c x : ascii) (r : string) :
  Ascii.eqb x c = false -> Cli.split0 c (String x r) = String x (Cli.split0 c r).
Proof.
  intros Hx. unfold Cli.split0, UrlParse.split_or, Str.split_once. simpl. rewrite Hx.
  destruct (Str.find_char c r); reflexivity.
Qed.

Lemma split0_cons_same (c : ascii) (r : string) : Cli.split0 c (String c r) = EmptyString.
Proof.
  unfold Cli.split0, UrlParse.split_or, Str.split_once. simpl.
  rewrite Ascii.eqb_refl. reflexivity.
Qed.

Lemma split0_empty (c : ascii) : Cli.split0 c EmptyString = EmptyString.
Proof. reflexivity. Qed.

Lemma split0_app (c : ascii) (a s : string) :
  Str.find_char c a = None -> Cli.split0 c (a ++ s) = (a ++ Cli.split0 c s)%string.
Proof.
  induction a as [|x a IH]; intros Ha; simpl; [reflexivity|].
  simpl in Ha. destruct (Ascii.eqb x c) eqn:Hx; [discriminate|].
  rewrite split0_cons_other by exact Hx. rewrite IH; [reflexivity|].
  destruct (Str.find_char c a); [discriminate|reflexivity].
Qed.

Lemma split0_none (c : ascii) (a : string) :
  Str.find_char c a = None -> Cli.split0 c a = a.
Proof.
  intros Ha. rewrite <- (str_app_nil a) at 1. rewrite split0_app by exact Ha.
  rewrite split0_empty. apply str_app_nil.
Qed.

(** X1.  The command line's [_is_pdf] looks only at the part of the URL
    before the first ['?'] and the first ['#']: appending a query or a
    fragment to a URL that has neither never changes its answer. *)
Theorem cli_is_pdf_ignores_query_fragment (u q : string) (force : bool) :
  Str.has_char "?" u = false -> Str.has_char "#" u = false ->
  Cli.is_pdf (u ++ String "?" q) force = Cli.is_pdf u force /\
  Cli.is_pdf (u ++ String "#" q) force = Cli.is_pdf u force.
Proof.
  intros Hq Hh. apply has_char_false in Hq, Hh.
  assert (Hq' : Str.find_char "?" (Str.lower u) = None)
    by (rewrite find_char_lower by exact lower_char_qmark; exact Hq).
  assert (Hh' : Str.find_char "#" (Str.lower u) = None)
    by (rewrite find_char_lower by exact lower_char_hash; exact Hh).
  unfold Cli.is_pdf. rewrite !lower_app. simpl Str.lower.
  rewrite (split0_none "?" (Str.lower u) Hq').
  split.
  - rewrite split0_app by exact Hq'. rewrite split0_cons_same, str_app_nil. reflexivity.
  - rewrite split0_app by exact Hq'. rewrite split0_cons_other by reflexivity.
    rewrite split0_app by exact Hh'. rewrite split0_cons_same, str_app_nil.
    rewrite (split0_none "#" (Str.lower u) Hh'). reflexivity.
Qed.

Lemma cli_is_pdf_ignores_query_fragment_witness :
  (Str.has_char "?" "http://h/A.PDF" = false /\ Str.has_char "#" "http://h/A.PDF" = false) /\
  Cli.is_pdf ("http://h/A.PDF" ++ String "?" "x=1") false = Cli.is_pdf "http://h/A.PDF" false.
Proof.
  split; [split; reflexivity|].
  exact (proj1 (cli_is_pdf_ignores_query_fragment "http://h/A.PDF" "x=1" false eq_refl eq_refl)).
Defined.

(** X2.  [main] picks its parser from the first argument that does not
    start with ['-'], whatever comes before or after it: the bare-URL parser
    when that argument is non-empty and is neither ["extract"] nor
    ["serve"], the subcommand parser otherwise.  So an option value placed
    first (the 5000 of [--timeout 5000 serve]) selects the bare-URL parser. *)
Theorem main_parser_first_positional (flags rest : list string) (a : string) :
  Forall (fun f => String.prefix "-" f = true) flags ->
  String.prefix "-" a = false ->
  Cli.main_parser (flags ++ a :: rest) =
  if Str.truthy a && negb (Str.in_strs a Cli.known_cmds) then Cli.BareUrlParser
  else Cli.SubcommandParser.
Proof.
  intros Hf Ha. unfold Cli.main_parser.
  assert (Hp : Cli.first_pos (flags ++ a :: rest) = Some a).
  { induction Hf as [|f fl Hf1 _ IH]; simpl.
    - rewrite Ha. reflexivity.
    - rewrite Hf1. exact IH. }
  rewrite Hp. reflexivity.
Qed.

Lemma main_parser_first_positional_witness :
  Forall (fun f => String.prefix "-" f = true) ["--timeout"%string] /\
  String.prefix "-" "5000" = false /\
  Cli.main_parser (["--timeout"%string] ++ "5000"%string :: ["serve"%string]) = Cli.BareUrlParser.
Proof.
  split; [repeat constructor|]. split; [reflexivity|].
  rewrite (main_parser_first_positional ["--timeout"%string] ["serve"%string] "5000")
    by (repeat constructor).
  reflexivity.
Defined.

(** *** Whitespace stripping *)

Lemma prefix_nil (s : string) : String.prefix EmptyString s = true.
Proof. destruct s; reflexivity. Qed.

Lemma lstrip_len (s : string) : String.length (PyStr.lstrip_ws s) <= String.length s.
Proof.
  induction s as [|x s IH]; simpl; [lia|]. destruct (PyStr.py_isspace x); simpl; lia.
Qed.

Lemma lstrip_fixed_head (x : ascii) (s : string) :
  PyStr.lstrip_ws (String x s) = String x s -> PyStr.py_isspace x = false.
Proof.
  simpl. destruct (PyStr.py_isspace x) eqn:Hx; [|reflexivity].
  intros H. pose proof (lstrip_len s) as L. rewrite H in L. simpl in L. lia.
Qed.

Lemma lstrip_ws_app_ws (w s : string) :
  UrlParse.all_chars PyStr.py_isspace w = true ->
  PyStr.lstrip_ws (w ++ s) = PyStr.lstrip_ws s.
Proof.
  induction w as [|x w IH]; simpl; [reflexivity|].
  intros H. apply andb_prop in H as [Hx Hw]. rewrite Hx. exact (IH Hw).
Qed.

Lemma lstrip_ws_keep (s t : string) :
  s <> EmptyString -> PyStr.lstrip_ws s = s -> PyStr.lstrip_ws (s ++ t) = (s ++ t)%string.
Proof.
  destruct s as [|x s]; [congruence|]. intros _ H.
  apply lstrip_fixed_head in H. simpl. rewrite H. reflexivity.
Qed.

Lemma rstrip_all_ws (w : string) :
  UrlParse.all_chars PyStr.py_isspace w = true -> PyStr.rstrip_ws w = EmptyString.
Proof.
  induction w as [|x w IH]; simpl; [reflexivity|].
  intros H. apply andb_prop in H as [Hx Hw]. rewrite (IH Hw), Hx. reflexivity.
Qed.

Lemma rstrip_ws_app_ws (s w : string) :
  UrlParse.all_chars PyStr.py_isspace w = true ->
  PyStr.rstrip_ws (s ++ w) = PyStr.rstrip_ws s.
Proof.
  intros Hw. induction s as [|x s IH]; simpl.
  - exact (rstrip_all_ws w Hw).
  - rewrite IH. reflexivity.
Qed.

Lemma strip_padded (key w1 w2 : string) :
  key <> EmptyString -> PyStr.lstrip_ws key = key -> PyStr.rstrip_ws key = key ->
  UrlParse.all_chars PyStr.py_isspace w1 = true ->
  UrlParse.all_chars PyStr.py_isspace w2 = true ->
  PyStr.py_strip (w1 ++ key ++ w2) = key.
Proof.
  intros Hne Hl Hr H1 H2. unfold PyStr.py_strip.
  rewrite lstrip_ws_app_ws by exact H1. rewrite lstrip_ws_keep by assumption.
  rewrite rstrip_ws_app_ws by exact H2. exact Hr.
Qed.

Lemma lstrip_idem (s : string) : PyStr.lstrip_ws (PyStr.lstrip_ws s) = PyStr.lstrip_ws s.
Proof.
  induction s as [|x s IH]; simpl; [reflexivity|].
  destruct (PyStr.py_isspace x) eqn:Hx; [exact IH|]. simpl. rewrite Hx. reflexivity.
Qed.

Lemma rstrip_cons (x : ascii) (s : string) :
  PyStr.rstrip_ws (String x s) =
  match PyStr.rstrip_ws s with
  | EmptyString => if PyStr.py_isspace x then EmptyString else String x EmptyString
  | _ => String x (PyStr.rstrip_ws s)
  end.
Proof. reflexivity. Qed.

Lemma rstrip_idem (s : string) : PyStr.rstrip_ws (PyStr.rstrip_ws s) = PyStr.rstrip_ws s.
Proof.
  induction s as [|x s IH]; [reflexivity|].
  rewrite (rstrip_cons x s). destruct (PyStr.rstrip_ws s) as [|y r] eqn:Hr.
  - destruct (PyStr.py_isspace x) eqn:Hx; [reflexivity|]. simpl. rewrite Hx. reflexivity.
  - rewrite rstrip_cons, IH. reflexivity.
Qed.

Lemma lstrip_rstrip (s : string) :
  PyStr.lstrip_ws s = s -> PyStr.lstrip_ws (PyStr.rstrip_ws s) = PyStr.rstrip_ws s.
Proof.
  destruct s as [|x s]; [reflexivity|]. intros H. apply lstrip_fixed_head in H.
  simpl. destruct (PyStr.rstrip_ws s) as [|y r].
  - rewrite H. simpl. rewrite H. reflexivity.
  - simpl. rewrite H. reflexivity.
Qed.

Lemma strip_stripped (t : string) :
  PyStr.lstrip_ws (PyStr.py_strip t) = PyStr.py_strip t /\
  PyStr.rstrip_ws (PyStr.py_strip t) = PyStr.py_strip t.
Proof.
  unfold PyStr.py_strip. split.
  - apply lstrip_rstrip, lstrip_idem.
  - apply rstrip_idem.
Qed.

(** X3.  With a non-empty API key that has no surrounding whitespace, an
    Authorization header ["Bearer "] followed by the key, with any
    whitespace before and after the key, is accepted. *)
Theorem check_auth_bearer_token (key w1 w2 : string) :
  key <> EmptyString -> PyStr.lstrip_ws key = key -> PyStr.rstrip_ws key = key ->
  UrlParse.all_chars PyStr.py_isspace w1 = true ->
  UrlParse.all_chars PyStr.py_isspace w2 = true ->
  check_auth key (Some ("Bearer " ++ w1 ++ key ++ w2)%string) = None.
Proof.
  intros Hne Hl Hr H1 H2. unfold check_auth.
  assert (Ht : Str.truthy key = true).
  { unfold Str.truthy. destruct key; [congruence|reflexivity]. }
  rewrite Ht. simpl.
  rewrite (strip_padded key w1 w2 Hne Hl Hr H1 H2), String.eqb_refl, prefix_nil.
  reflexivity.
Qed.

Lemma check_auth_bearer_token_witness :
  ("s3cret"%string <> EmptyString /\ PyStr.lstrip_ws "s3cret" = "s3cret"%string /\
   PyStr.rstrip_ws "s3cret" = "s3cret"%string /\
   UrlParse.all_chars PyStr.py_isspace " " = true /\
   UrlParse.all_chars PyStr.py_isspace "  " = true) /\
  check_auth "s3cret" (Some ("Bearer " ++ " " ++ "s3cret" ++ "  ")%string) = None.
Proof.
  split; [split; [discriminate|repeat split]|].
  apply check_auth_bearer_token; [discriminate|reflexivity..].
Defined.

(** X4.  An API key with leading or trailing whitespace locks every client
    out: [strip()] removes such whitespace from the token, so every request
    that needs authentication gets the 401 reply. *)
Theorem check_auth_padded_key_rejects (key : string) (authorization : option string) :
  PyStr.lstrip_ws key <> key \/ PyStr.rstrip_ws key <> key ->
  check_auth key authorization = Some unauthorized.
Proof.
  intros Hk. unfold check_auth.
  assert (Ht : Str.truthy key = true).
  { unfold Str.truthy. destruct key; [|reflexivity]. simpl in Hk. tauto. }
  rewrite Ht. unfold negb. cbv beta iota zeta.
  set (t := Str.drop 7 (match authorization with Some a => a | None => EmptyString end)).
  destruct (String.eqb (PyStr.py_strip t) key) eqn:He.
  - apply String.eqb_eq in He. destruct (strip_stripped t) as [Hl Hr].
    rewrite He in Hl, Hr. tauto.
  - rewrite andb_false_r. reflexivity.
Qed.

Lemma check_auth_padded_key_rejects_witness :
  (PyStr.lstrip_ws " k" <> " k"%string \/ PyStr.rstrip_ws " k" <> " k"%string) /\
  check_auth " k" (Some "Bearer  k"%string) = Some unauthorized.
Proof.
  split; [left; discriminate|].
  apply check_auth_padded_key_rejects. left. discriminate.
Defined.

(** *** The request handler *)

Lemma check_auth_cases (key : string) (authorization : option string) :
  check_auth key authorization = None \/ check_auth key authorization = Some unauthorized.
Proof.
  unfold check_auth. destruct (negb (Str.truthy key)); [left; reflexivity|].
  match goal with |- context [if ?b then None else _] => destruct b end; auto.
Qed.

(** X5.  A GET answers 200 exactly for ["/health"], whatever the
    Authorization header; every other path answers 401 when the header is
    rejected and 404 otherwise. *)
Theorem do_GET_replies (key : string) (authorization : option string) (path : string) :
  do_GET key authorization "/health" = (200%Z, JObj [("status"%string, JStr "ok")]) /\
  (path <> "/health"%string ->
   do_GET key authorization path =
   match check_auth key authorization with Some _ => unauthorized | None => not_found end) /\
  (fst (do_GET key authorization path) = 200%Z <-> path = "/health"%string).
Proof.
  assert (Hp : path <> "/health"%string ->
               do_GET key authorization path =
               match check_auth key authorization with Some _ => unauthorized | None => not_found end).
  { intros Hne. unfold do_GET. apply String.eqb_neq in Hne. rewrite Hne.
    destruct (check_auth_cases key authorization) as [H|H]; rewrite H; reflexivity. }
  split; [reflexivity|]. split; [exact Hp|]. split.
  - intros H200. destruct (String.eqb_spec path "/health") as [E|E]; [exact E|].
    rewrite (Hp E) in H200. destruct (check_auth key authorization); discriminate.
  - intros ->. reflexivity.
Qed.

(** X6.  Once authenticated, a POST whose Content-Length is 0 or missing is
    answered 400 "empty body", whatever its path; one whose body [json.loads]
    rejects with [JSONDecodeError] is answered 400 "invalid JSON"; any other
    exception of [json.loads] (such as [UnicodeDecodeError] on a body that is
    not UTF-8) escapes without a reply.  None of them queues a job. *)
Theorem do_POST_body_errors (env : Env) (ua : option string) (key : string)
  (authorization : option string) (path : string) (submit : Submit_fn) :
  check_auth key authorization = None ->
  (forall loads, do_POST env ua key authorization path (Ok 0%Z) loads submit
                 = ([], Ok (400%Z, err_body "empty body"))) /\
  (forall n m, n <> 0%Z ->
     do_POST env ua key authorization path (Ok n) (Raise (Exn "JSONDecodeError" m)) submit
     = ([], Ok (400%Z, err_body "invalid JSON"))) /\
  (forall n cls m, n <> 0%Z -> cls <> "JSONDecodeError"%string ->
     do_POST env ua key authorization path (Ok n) (Raise (Exn cls m)) submit
     = ([], Raise (Exn cls m))).
Proof.
  intros Ha. unfold do_POST. rewrite Ha. split; [|split].
  - intros loads. reflexivity.
  - intros n m Hn. unfold read_json_body. simpl.
    apply Z.eqb_neq in Hn. rewrite Hn. reflexivity.
  - intros n cls m Hn Hcls. unfold read_json_body. simpl.
    apply Z.eqb_neq in Hn. rewrite Hn.
    apply String.eqb_neq in Hcls. rewrite Hcls. reflexivity.
Qed.

Lemma do_POST_body_errors_witness :
  check_auth "" None = None /\
  do_POST offline_env None "" None "/extract" (Ok 0%Z) (Ok PNone) (fun _ _ _ => None)
    = ([], Ok (400%Z, err_body "empty body")).
Proof.
  split; [reflexivity|].
  exact (proj1 (do_POST_body_errors offline_env None "" None "/extract" (fun _ _ _ => None)
                  eq_refl) (Ok PNone)).
Defined.





(** X9.  [POST /extract] with a non-blank string ["url"] and a ["pdf"] member
    that is present and not null queues exactly one job, for the stripped
    URL, whose PDF flag is the truth value of that member (so ["false"] as a
    string asks for a PDF), and replies with that job's outcome; no PDF
    detection (no HEAD request) takes place, so the reply does not depend on
    the network. *)
Theorem do_POST_extract_explicit_pdf (env : Env) (ua : option string) (key : string)
  (authorization : option string) (cl : res Z) (loads : res pyval)
  (kvs : list (string * pyval)) (s : string) (p : pyval) (submit : Submit_fn) :
  check_auth key authorization = None ->
  read_json_body cl loads = Ok (Body (PDict kvs)) ->
  get_or "url" kvs (PStr "") = PStr s ->
  Str.truthy (PyStr.py_strip s) = true ->
  get_or "pdf" kvs PNone = p -> p <> PNone ->
  do_POST env ua key authorization "/extract" cl loads submit =
  ([(PyStr.py_strip s, py_truthy p)],
   Ok (extract_response (submit 0 (PyStr.py_strip s) (py_truthy p)))).
Proof.
  intros Ha Hb Hu Ht Hp Hn. unfold do_POST. rewrite Ha, Hb. simpl.
  unfold legacy_extract. rewrite Hu, Ht, Hp. simpl.
  destruct p; [congruence|reflexivity..].
Qed.

Lemma do_POST_extract_explicit_pdf_witness :
  (check_auth "" None = None /\
   read_json_body (Ok 40%Z) (Ok (PDict [("url", PStr " http://a/doc "); ("pdf", PStr "false")]%string))
     = Ok (Body (PDict [("url", PStr " http://a/doc "); ("pdf", PStr "false")]%string)) /\
   get_or "url" [("url", PStr " http://a/doc "); ("pdf", PStr "false")]%string (PStr "")
     = PStr " http://a/doc " /\
   Str.truthy (PyStr.py_strip " http://a/doc ") = true /\
   get_or "pdf" [("url", PStr " http://a/doc "); ("pdf", PStr "false")]%string PNone = PStr "false" /\
   PStr "false" <> PNone) /\
  do_POST offline_env None "" None "/extract" (Ok 40%Z)
    (Ok (PDict [("url", PStr " http://a/doc "); ("pdf", PStr "false")]%string)) (fun _ _ _ => None)
  = ([("http://a/doc"%string, true)], Ok (extract_response None)).
Proof.
  split; [repeat split; discriminate|].
  exact (do_POST_extract_explicit_pdf offline_env None "" None (Ok 40%Z)
           (Ok (PDict [("url", PStr " http://a/doc "); ("pdf", PStr "false")]%string))
           [("url", PStr " http://a/doc "); ("pdf", PStr "false")]%string " http://a/doc "
           (PStr "false") (fun _ _ _ => None) eq_refl eq_refl eq_refl eq_refl eq_refl
           ltac:(discriminate)).
Defined.

Lemma batch_loop_ok (env : Env) (ua : option string) (submit : Submit_fn) (ss : list string) :
  (forall s, In s ss -> Str.truthy (PyStr.py_strip s) = true ->
             exists b, detect_pdf env (PyStr.py_strip s) ua 10 = Ok b) ->
  forall n, exists subs,
    batch_loop env ua submit n (map PStr ss) = (subs, Ok (documents submit n subs)) /\
    map fst subs = filter Str.truthy (map PyStr.py_strip ss) /\
    Forall (fun ub => detect_pdf env (fst ub) ua 10 = Ok (snd ub)) subs.
Proof.
  induction ss as [|s ss IH]; intros Hd n.
  - exists []. repeat split. constructor.
  - assert (Hd' : forall s', In s' ss -> Str.truthy (PyStr.py_strip s') = true ->
                  exists b, detect_pdf env (PyStr.py_strip s') ua 10 = Ok b)
      by (intros s' Hin; apply Hd; right; exact Hin).
    simpl. destruct (Str.truthy (PyStr.py_strip s)) eqn:Ht; simpl.
    + destruct (Hd s (or_introl eq_refl) Ht) as [b Hb]. rewrite Hb.
      destruct (IH Hd' (S n)) as [subs [Heq [Hm Hf]]]. rewrite Heq.
      exists ((PyStr.py_strip s, b) :: subs). split; [reflexivity|]. split.
      * simpl. rewrite Hm. reflexivity.
      * constructor; [exact Hb|exact Hf].
    + exact (IH Hd' n).
Qed.

(** X10.  A batch request ([POST /] with an object whose ["urls"] is a
    non-empty list of strings) on which PDF detection does not raise queues
    one job per URL that is not blank after [strip()], in list order, and
    replies 200 with one document per job, in the same order; each job's PDF
    flag is the detection's answer for its URL. *)
Theorem do_POST_batch_documents (env : Env) (ua : option string) (key : string)
  (authorization : option string) (path : string) (cl : res Z) (loads : res pyval)
  (kvs : list (string * pyval)) (ss : list string) (submit : Submit_fn) :
  check_auth key authorization = None ->
  read_json_body cl loads = Ok (Body (PDict kvs)) ->
  Str.in_strs path [""%string; "/"%string] = true ->
  dict_get "urls" kvs = Some (PList (map PStr ss)) ->
  ss <> [] ->
  (forall s, In s ss -> Str.truthy (PyStr.py_strip s) = true ->
             exists b, detect_pdf env (PyStr.py_strip s) ua 10 = Ok b) ->
  exists subs,
    do_POST env ua key authorization path cl loads submit
      = (subs, Ok (200%Z, JArr (documents submit 0 subs))) /\
    map fst subs = filter Str.truthy (map PyStr.py_strip ss) /\
    Forall (fun ub => detect_pdf env (fst ub) ua 10 = Ok (snd ub)) subs.
Proof.
  intros Ha Hb Hp Hu Hne Hd. unfold do_POST. rewrite Ha, Hb, Hp.
  simpl py_contains. rewrite Hu.
  unfold batch_extract, get_or. rewrite Hu.
  destruct ss as [|s0 ss0]; [congruence|].
  destruct (batch_loop_ok env ua submit (s0 :: ss0) Hd 0) as [subs [Heq [Hm Hf]]].
  simpl map in Heq |- *. rewrite Heq.
  exists subs. split; [reflexivity|]. split; assumption.
Qed.

Lemma do_POST_batch_documents_witness :
  exists subs,
    do_POST offline_env None "" None "/" (Ok 30%Z)
      (Ok (PDict [("urls", PList (map PStr [" http://a/x.pdf "; "  "; "http://b/"]))]%string))
      (fun _ _ _ => None)
      = (subs, Ok (200%Z, JArr (documents (fun _ _ _ => None) 0 subs))) /\
    map fst subs = filter Str.truthy (map PyStr.py_strip [" http://a/x.pdf "; "  "; "http://b/"]%string) /\
    Forall (fun ub => detect_pdf offline_env (fst ub) None 10 = Ok (snd ub)) subs.
Proof.
  apply (do_POST_batch_documents offline_env None "" None "/" (Ok 30%Z)
           (Ok (PDict [("urls", PList (map PStr [" http://a/x.pdf "; "  "; "http://b/"]))]%string))
           [("urls", PList (map PStr [" http://a/x.pdf "; "  "; "http://b/"]))]%string
           [" http://a/x.pdf "; "  "; "http://b/"]%string (fun _ _ _ => None));
    [reflexivity|reflexivity|reflexivity|reflexivity|discriminate|].
  intros s Hin _. simpl in Hin.
  destruct Hin as [<-|[<-|[<-|[]]]]; eexists; vm_compute; reflexivity.
Defined.

(** X11.  A batch request whose ["urls"] member is not a list, or is an
    empty list, is answered 400 "urls must be a non-empty array" and queues
    no job. *)
Theorem do_POST_batch_bad_urls (env : Env) (ua : option string) (key : string)
  (authorization : option string) (path : string) (cl : res Z) (loads : res pyval)
  (kvs : list (string * pyval)) (v : pyval) (submit : Submit_fn) :
  check_auth key authorization = None ->
  read_json_body cl loads = Ok (Body (PDict kvs)) ->
  Str.in_strs path [""%string; "/"%string] = true ->
  dict_get "urls" kvs = Some v ->
  (forall l, v = PList l -> l = []) ->
  do_POST env ua key authorization path cl loads submit
    = ([], Ok (400%Z, err_body "urls must be a non-empty array")).
Proof.
  intros Ha Hb Hp Hu Hv. unfold do_POST. rewrite Ha, Hb, Hp.
  simpl py_contains. rewrite Hu.
  unfold batch_extract, get_or. rewrite Hu.
  destruct v as [| | | | |l|]; try reflexivity.
  rewrite (Hv l eq_refl). reflexivity.
Qed.

Lemma do_POST_batch_bad_urls_witness :
  (check_auth "" None = None /\
   read_json_body (Ok 11%Z) (Ok (PDict [("urls", PStr "http://a/")]%string))
     = Ok (Body (PDict [("urls", PStr "http://a/")]%string)) /\
   Str.in_strs "/" [""%string; "/"%string] = true /\
   dict_get "urls" [("urls", PStr "http://a/")]%string = Some (PStr "http://a/")) /\
  do_POST offline_env None "" None "/" (Ok 11%Z) (Ok (PDict [("urls", PStr "http://a/")]%string))
    (fun _ _ _ => None) = ([], Ok (400%Z, err_body "urls must be a non-empty array")).
Proof.
  split; [repeat split|].
  apply (do_POST_batch_bad_urls offline_env None "" None "/" (Ok 11%Z)
           (Ok (PDict [("urls", PStr "http://a/")]%string)) [("urls", PStr "http://a/")]%string
           (PStr "http://a/")); try reflexivity.
  intros l H. discriminate.
Defined.

Lemma batch_loop_raise (env : Env) (ua : option string) (submit : Submit_fn)
  (ss1 : list string) (s : string) (ss2 : list pyval) (e : exn) :
  (forall s', In s' ss1 -> Str.truthy (PyStr.py_strip s') = true ->
              exists b, detect_pdf env (PyStr.py_strip s') ua 10 = Ok b) ->
  Str.truthy (PyStr.py_strip s) = true ->
  detect_pdf env (PyStr.py_strip s) ua 10 = Raise e ->
  forall n, exists subs,
    batch_loop env ua submit n (map PStr ss1 ++ PStr s :: ss2) = (subs, Raise e) /\
    map fst subs = filter Str.truthy (map PyStr.py_strip ss1).
Proof.
  intros Hd Ht He. induction ss1 as [|s1 ss1 IH]; intros n.
  - exists []. simpl. rewrite Ht. simpl. rewrite He. split; reflexivity.
  - assert (Hd' : forall s', In s' ss1 -> Str.truthy (PyStr.py_strip s') = true ->
                  exists b, detect_pdf env (PyStr.py_strip s') ua 10 = Ok b)
      by (intros s' Hin; apply Hd; right; exact Hin).
    simpl. destruct (Str.truthy (PyStr.py_strip s1)) eqn:Ht1; simpl.
    + destruct (Hd s1 (or_introl eq_refl) Ht1) as [b Hb]. rewrite Hb.
      destruct (IH Hd' (S n)) as [subs [Heq Hm]]. rewrite Heq.
      exists ((PyStr.py_strip s1, b) :: subs). split; [reflexivity|].
      simpl. rewrite Hm. reflexivity.
    + exact (IH Hd' n).
Qed.

(** X12.  In a batch request, when PDF detection raises for a URL (for
    example [urlparse]'s [ValueError] on an unbalanced bracket), the
    exception escapes [do_POST]: the client gets no reply at all, while the
    jobs of the non-blank URLs before it have already been queued. *)
Theorem do_POST_batch_detect_raises (env : Env) (ua : option string) (key : string)
  (authorization : option string) (path : string) (cl : res Z) (loads : res pyval)
  (kvs : list (string * pyval)) (ss1 : list string) (s : string) (ss2 : list pyval)
  (e : exn) (submit : Submit_fn) :
  check_auth key authorization = None ->
  read_json_body cl loads = Ok (Body (PDict kvs)) ->
  Str.in_strs path [""%string; "/"%string] = true ->
  dict_get "urls" kvs = Some (PList (map PStr ss1 ++ PStr s :: ss2)) ->
  (forall s', In s' ss1 -> Str.truthy (PyStr.py_strip s') = true ->
              exists b, detect_pdf env (PyStr.py_strip s') ua 10 = Ok b) ->
  Str.truthy (PyStr.py_strip s) = true ->
  detect_pdf env (PyStr.py_strip s) ua 10 = Raise e ->
  exists subs,
    do_POST env ua key authorization path cl loads submit = (subs, Raise e) /\
    map fst subs = filter Str.truthy (map PyStr.py_strip ss1).
Proof.
  intros Ha Hb Hp Hu Hd Ht He. unfold do_POST. rewrite Ha, Hb, Hp.
  simpl py_contains. rewrite Hu.
  unfold batch_extract, get_or. rewrite Hu.
  destruct (batch_loop_raise env ua submit ss1 s ss2 e Hd Ht He 0) as [subs [Heq Hm]].
  destruct (map PStr ss1 ++ PStr s :: ss2) as [|v0 l0] eqn:Hl.
  - destruct ss1; discriminate.
  - rewrite Heq. exists subs. split; [reflexivity|exact Hm].
Qed.

Lemma do_POST_batch_detect_raises_witness :
  exists subs,
    do_POST offline_env None "" None "/" (Ok 30%Z)
      (Ok (PDict [("urls", PList (map PStr ["http://a/"] ++ PStr "http://[x/a" :: []))]%string))
      (fun _ _ _ => None) = (subs, Raise UrlParse.invalid_ipv6) /\
    map fst subs = filter Str.truthy (map PyStr.py_strip ["http://a/"%string]).
Proof.
  apply (do_POST_batch_detect_raises offline_env None "" None "/" (Ok 30%Z)
           (Ok (PDict [("urls", PList (map PStr ["http://a/"] ++ PStr "http://[x/a" :: []))]%string))
           [("urls", PList (map PStr ["http://a/"] ++ PStr "http://[x/a" :: []))]%string
           ["http://a/"%string] "http://[x/a" [] UrlParse.invalid_ipv6 (fun _ _ _ => None));
    try reflexivity.
  intros s' Hin _. destruct Hin as [<-|[]]. eexists. vm_compute. reflexivity.
Defined.



(** *** The Open WebUI tool *)

Lemma rstrip_char_all (c : ascii) (w : string) :
  UrlParse.all_chars (fun x => Ascii.eqb x c) w = true -> Str.rstrip_char c w = EmptyString.
Proof.
  induction w as [|x w IH]; simpl; [reflexivity|].
  intros H. apply andb_true_iff in H as [Hx Hw]. rewrite (IH Hw), Hx. reflexivity.
Qed.

Lemma rstrip_char_app_all (c : ascii) (s w : string) :
  UrlParse.all_chars (fun x => Ascii.eqb x c) w = true ->
  Str.rstrip_char c (s ++ w) = Str.rstrip_char c s.
Proof.
  intros Hw. induction s as [|x s IH]; simpl.
  - exact (rstrip_char_all c w Hw).
  - rewrite IH. reflexivity.
Qed.

(** X14.  The tool posts to the same endpoint whatever number of slashes
    ends the configured server URL. *)
Theorem post_request_trailing_slashes (server_url api_key url w : string) (pdf : option bool) :
  UrlParse.all_chars (fun x => Ascii.eqb x "/") w = true ->
  Tools.req_url (Tools.post_request (Tools.mkValves (server_url ++ w) api_key) url pdf) =
  Tools.req_url (Tools.post_request (Tools.mkValves server_url api_key) url pdf).
Proof.
  intros Hw. unfold Tools.post_request. simpl. rewrite (rstrip_char_app_all "/" server_url w Hw).
  reflexivity.
Qed.

Lemma post_request_trailing_slashes_witness :
  UrlParse.all_chars (fun x => Ascii.eqb x "/") "//" = true /\
  Tools.req_url (Tools.post_request (Tools.mkValves ("http://h:8766" ++ "//") "") "http://a/" None) =
  Tools.req_url (Tools.post_request (Tools.mkValves "http://h:8766" "") "http://a/" None).
Proof.
  split; [reflexivity|]. apply post_request_trailing_slashes. reflexivity.
Defined.

Lemma check_auth_own_key (key : string) :
  key = EmptyString \/ (PyStr.lstrip_ws key = key /\ PyStr.rstrip_ws key = key) ->
  check_auth key (if Str.truthy key then Some ("Bearer " ++ key)%string else None) = None.
Proof.
  intros [->|[Hl Hr]]; [reflexivity|].
  destruct key as [|k0 key0] eqn:Ek; [reflexivity|]. rewrite <- Ek in *.
  assert (Ht : Str.truthy key = true) by (subst key; reflexivity).
  assert (Hne : key <> EmptyString) by (subst key; discriminate).
  rewrite Ht. unfold check_auth. rewrite Ht. simpl.
  pose proof (strip_padded key "" "" Hne Hl Hr eq_refl eq_refl) as Hs.
  simpl in Hs. rewrite str_app_nil in Hs. rewrite Hs, String.eqb_refl, prefix_nil.
  reflexivity.
Qed.

(** X15.  The tool and the server agree.  When the server runs with the same
    API key as the tool (one without surrounding whitespace, or none), the
    request of [fetch_pdf] on a URL that is not blank is accepted and queues
    exactly one PDF job for the stripped URL, with no PDF detection; the
    request of [fetch_page] and [fetch_page_html] (no ["pdf"] member) queues
    one job whose PDF flag is the server's detection result. *)
Theorem tool_requests_served (env : Env) (ua : option string) (v : Tools.Valves)
  (url : string) (n : Z) (submit : Submit_fn) :
  Tools.api_key v = EmptyString \/
  (PyStr.lstrip_ws (Tools.api_key v) = Tools.api_key v /\
   PyStr.rstrip_ws (Tools.api_key v) = Tools.api_key v) ->
  n <> 0%Z -> Str.truthy (PyStr.py_strip url) = true ->
  do_POST env ua (Tools.api_key v) (Tools.req_authorization (Tools.post_request v url (Some true)))
    "/extract" (Ok n) (Ok (PDict (Tools.req_payload (Tools.post_request v url (Some true))))) submit
  = ([(PyStr.py_strip url, true)], Ok (extract_response (submit 0 (PyStr.py_strip url) true))) /\
  (forall b, detect_pdf env (PyStr.py_strip url) ua 10 = Ok b ->
   do_POST env ua (Tools.api_key v) (Tools.req_authorization (Tools.post_request v url None))
     "/extract" (Ok n) (Ok (PDict (Tools.req_payload (Tools.post_request v url None)))) submit
   = ([(PyStr.py_strip url, b)], Ok (extract_response (submit 0 (PyStr.py_strip url) b)))).
Proof.
  intros Hk Hn Ht. pose proof (check_auth_own_key (Tools.api_key v) Hk) as Ha.
  apply Z.eqb_neq in Hn.
  assert (Hr : forall p, Tools.req_authorization (Tools.post_request v url p) =
    (if Str.truthy (Tools.api_key v) then Some ("Bearer " ++ Tools.api_key v)%string else None))
    by reflexivity.
  split; [|intros b Hb]; unfold do_POST; rewrite Hr, Ha;
    simpl read_json_body; rewrite Hn; simpl; unfold legacy_extract; simpl; rewrite Ht.
  - reflexivity.
  - simpl. rewrite Hb. reflexivity.
Qed.

Lemma tool_requests_served_witness :
  do_POST offline_env None "k" (Tools.req_authorization
      (Tools.post_request (Tools.mkValves "http://h/" "k") " http://a/f " (Some true)))
    "/extract" (Ok 30%Z)
    (Ok (PDict (Tools.req_payload
      (Tools.post_request (Tools.mkValves "http://h/" "k") " http://a/f " (Some true)))))
    (fun _ _ _ => None)
  = ([("http://a/f"%string, true)], Ok (extract_response None)).
Proof.
  exact (proj1 (tool_requests_served offline_env None (Tools.mkValves "http://h/" "k")
                  " http://a/f " 30%Z (fun _ _ _ => None)
                  (or_intror (conj eq_refl eq_refl)) ltac:(discriminate) eq_refl)).
Defined.

(** X16.  Each tool function reports exactly two statuses to an event
    emitter, a first one not done and a last one done, whether the request
    succeeds or fails; without an emitter it reports none. *)
Theorem tool_status_events (url : string) (post : res ExtractionResult) :
  map snd (fst (Tools.fetch_page true url post)) = [false; true] /\
  map snd (fst (Tools.fetch_page_html true url post)) = [false; true] /\
  map snd (fst (Tools.fetch_pdf true url post)) = [false; true] /\
  fst (Tools.fetch_page false url post) = [] /\
  fst (Tools.fetch_page_html false url post) = [] /\
  fst (Tools.fetch_pdf false url post) = [].
Proof.
  unfold Tools.fetch_page, Tools.fetch_page_html, Tools.fetch_pdf, Tools.emit.
  destruct post as [r|e]; [destruct (Str.truthy (error r))|]; repeat split.
Qed.

(** *** The Qt objects of the extractor *)

Definition objs_ok (o : Objects.objs) : Prop :=
  NoDup (Objects.deleted o) /\
  (forall x, In x (Objects.alive o) -> ~ In x (Objects.deleted o)) /\
  (forall x, In x (Objects.alive o) -> x < Objects.fresh o) /\
  (forall x, In x (Objects.deleted o) -> x < Objects.fresh o).

Lemma objs_ok_init : objs_ok Objects.init.
Proof.
  unfold objs_ok, Objects.init; simpl. repeat split.
  - constructor.
  - intros x _ [].
  - intros x [<-|[]]. lia.
  - intros x [].
Qed.

Lemma delete_ok (o : Objects.objs) (x : nat) :
  objs_ok o -> objs_ok (Objects.delete_if_valid o x).
Proof.
  intros (Hnd & Had & Haf & Hdf). unfold Objects.delete_if_valid.
  destruct (existsb (Nat.eqb x) (Objects.alive o)) eqn:Ex; [|repeat split; assumption].
  apply existsb_exists in Ex as [y [Hy Exy]]. apply Nat.eqb_eq in Exy. subst y.
  unfold objs_ok; simpl. repeat split.
  - apply NoDup_app; [exact Hnd|constructor; [intros []|constructor]|].
    intros z Hz [<-|[]]. exact (Had x Hy Hz).
  - intros z Hz Hd. apply in_remove in Hz as [Hz Hzx].
    apply in_app_or in Hd as [Hd|[<-|[]]]; [exact (Had z Hz Hd)|congruence].
  - intros z Hz. apply in_remove in Hz as [Hz _]. exact (Haf z Hz).
  - intros z Hd. apply in_app_or in Hd as [Hd|[<-|[]]]; [exact (Hdf z Hd)|exact (Haf x Hy)].
Qed.

Lemma delete_fields (o : Objects.objs) (x : nat) :
  Objects.pages (Objects.delete_if_valid o x) = Objects.pages o /\
  Objects.profile (Objects.delete_if_valid o x) = Objects.profile o.
Proof.
  unfold Objects.delete_if_valid. destruct (existsb _ _); split; reflexivity.
Qed.

Lemma fold_delete_ok (xs : list nat) (o : Objects.objs) :
  objs_ok o -> objs_ok (fold_left Objects.delete_if_valid xs o) /\
  Objects.profile (fold_left Objects.delete_if_valid xs o) = Objects.profile o.
Proof.
  revert o. induction xs as [|x xs IH]; intros o Ho; simpl; [split; [exact Ho|reflexivity]|].
  destruct (IH _ (delete_ok o x Ho)) as [H1 H2]. split; [exact H1|].
  rewrite H2. apply delete_fields.
Qed.

Lemma cleanup_ok (o : Objects.objs) :
  objs_ok o -> objs_ok (Objects.cleanup o) /\
  Objects.pages (Objects.cleanup o) = [] /\ Objects.profile (Objects.cleanup o) = None.
Proof.
  intros Ho. unfold Objects.cleanup.
  destruct (fold_delete_ok (Objects.pages o) o Ho) as [H1 H2].
  remember (fold_left Objects.delete_if_valid (Objects.pages o) o) as o1.
  destruct o1 as [pg1 pf1 al1 de1 fr1]. simpl.
  destruct pf1 as [p|].
  - pose proof (delete_ok (Objects.mkObjs [] (Some p) al1 de1 fr1) p H1) as H3.
    destruct (delete_fields (Objects.mkObjs [] (Some p) al1 de1 fr1) p) as [Hp _].
    destruct (Objects.delete_if_valid (Objects.mkObjs [] (Some p) al1 de1 fr1) p)
      as [pg3 pf3 al3 de3 fr3].
    simpl in *. subst pg3. split; [exact H3|split; reflexivity].
  - split; [exact H1|split; reflexivity].
Qed.

Lemma remove_first_single (p : nat) : Objects.remove_first p [p] = [].
Proof. simpl. rewrite Nat.eqb_refl. reflexivity. Qed.

Lemma extract_ok (o o' : Objects.objs) :
  objs_ok o -> Objects.pages o = [] -> Objects.extract o = Ok o' ->
  objs_ok o' /\ Objects.pages o' = [].
Proof.
  intros (Hnd & Had & Haf & Hdf) Hpg He. unfold Objects.extract in He.
  destruct (Objects.profile o) as [pr|] eqn:Epr; [|discriminate].
  injection He as <-. rewrite Hpg. simpl.
  assert (H1 : objs_ok (Objects.mkObjs [Objects.fresh o] (Some pr)
                  (Objects.alive o ++ [Objects.fresh o]) (Objects.deleted o) (S (Objects.fresh o)))).
  { unfold objs_ok; simpl. repeat split.
    - exact Hnd.
    - intros z Hz Hd. apply in_app_or in Hz as [Hz|[<-|[]]]; [exact (Had z Hz Hd)|].
      specialize (Hdf _ Hd). lia.
    - intros z Hz. apply in_app_or in Hz as [Hz|[<-|[]]]; [specialize (Haf z Hz); lia|lia].
    - intros z Hd. specialize (Hdf z Hd). lia. }
  pose proof (delete_ok _ (Objects.fresh o) H1) as H2.
  destruct (delete_fields (Objects.mkObjs [Objects.fresh o] (Some pr)
                  (Objects.alive o ++ [Objects.fresh o]) (Objects.deleted o) (S (Objects.fresh o)))
              (Objects.fresh o)) as [Hp _].
  destruct (Objects.delete_if_valid _ (Objects.fresh o)) as [pg3 pf3 al3 de3 fr3].
  simpl in *. subst pg3. rewrite remove_first_single. split; [exact H2|reflexivity].
Qed.

Lemma run_ops_ok (ops : list Objects.op) (o : Objects.objs) :
  objs_ok o -> Objects.pages o = [] ->
  objs_ok (Objects.run_ops o ops) /\ Objects.pages (Objects.run_ops o ops) = [].
Proof.
  revert o. induction ops as [|[|] ops IH]; intros o Ho Hp; simpl; [split; assumption| |].
  - destruct (Objects.extract o) as [o'|e] eqn:He; [|exact (IH o Ho Hp)].
    destruct (extract_ok o o' Ho Hp He) as [H1 H2]. exact (IH o' H1 H2).
  - destruct (cleanup_ok o Ho) as [H1 [H2 _]]. exact (IH _ H1 H2).
Qed.

(** X17.  Over any sequence of [extract] and [_cleanup] calls on a new
    extractor, no Qt object is deleted twice, and [self._pages] is empty
    between calls. *)
Theorem objects_deleted_once (ops : list Objects.op) :
  NoDup (Objects.deleted (Objects.run_ops Objects.init ops)) /\
  Objects.pages (Objects.run_ops Objects.init ops) = [].
Proof.
  destruct (run_ops_ok ops Objects.init objs_ok_init eq_refl) as [[H _] Hp].
  split; [exact H|exact Hp].
Qed.

Lemma cleanup_shape (o : Objects.objs) :
  Objects.pages (Objects.cleanup o) = [] /\ Objects.profile (Objects.cleanup o) = None.
Proof.
  unfold Objects.cleanup.
  destruct (fold_left Objects.delete_if_valid (Objects.pages o) o) as [pg1 pf1 al1 de1 fr1].
  simpl. destruct pf1 as [p|]; [|split; reflexivity].
  destruct (delete_fields (Objects.mkObjs [] (Some p) al1 de1 fr1) p) as [Hp _].
  destruct (Objects.delete_if_valid (Objects.mkObjs [] (Some p) al1 de1 fr1) p)
    as [pg3 pf3 al3 de3 fr3].
  simpl in *. subst pg3. split; reflexivity.
Qed.

(** X18.  After [_cleanup], the extractor is spent: every later [extract]
    fails its assertion and every later [_cleanup] deletes nothing, so no
    sequence of further calls changes its objects. *)
Theorem cleanup_final (o : Objects.objs) (ops : list Objects.op) :
  Objects.run_ops (Objects.cleanup o) ops = Objects.cleanup o /\
  Objects.extract (Objects.cleanup o) = Raise profile_assert.
Proof.
  destruct (cleanup_shape o) as [Hp Hf].
  assert (Hx : Objects.extract (Objects.cleanup o) = Raise profile_assert)
    by (unfold Objects.extract; rewrite Hf; reflexivity).
  assert (Hc : Objects.cleanup (Objects.cleanup o) = Objects.cleanup o).
  { remember (Objects.cleanup o) as o1. destruct o1 as [pg pf al de fr].
    simpl in Hp, Hf. subst pg pf. reflexivity. }
  split; [|exact Hx].
  induction ops as [|[|] ops IH]; simpl; [reflexivity| |].
  - rewrite Hx. exact IH.
  - rewrite Hc. exact IH.
Qed.

(** *** Shutdown of the dispatcher *)

Lemma count_sentinels_snoc (q : list (option Job)) (x : option Job) :
  count_sentinels (q ++ [x]) = count_sentinels q + (match x with None => 1 | Some _ => 0 end).
Proof.
  unfold count_sentinels. rewrite filter_app, length_app. destruct x; reflexivity.
Qed.

Lemma step_after_sentinel (env : Env) (ex : Extractor) (s s1 : Server) (e : SEvent) :
  poll_active s = false -> server_step env ex s e = Some s1 ->
  poll_active s1 = false /\ (exists q, queue s1 = queue s ++ q) /\
  (exists l, log s1 = log s ++ l /\ forall j, ~ In (LBegin j) l).
Proof.
  intros Hp Hs. destruct e as [u pdf| | |k ev|]; simpl in Hs.
  - injection Hs as <-. simpl. split; [exact Hp|split; [eexists; reflexivity|]].
    eexists; split; [reflexivity|]. intros j [H|[]]. discriminate.
  - destruct (shutting_down s).
    + injection Hs as <-. split; [exact Hp|split].
      * exists []. symmetry. apply app_nil_r.
      * exists []. split; [symmetry; apply app_nil_r|intros j []].
    + injection Hs as <-. simpl. split; [exact Hp|split; [eexists; reflexivity|]].
      exists []. split; [symmetry; apply app_nil_r|intros j []].
  - rewrite Hp in Hs. discriminate.
  - destruct (nth_error (frames s) k) as [f|]; [|discriminate].
    destruct (deliver f ev) as [f'|]; [|discriminate].
    injection Hs as <-. simpl. split; [exact Hp|split].
    + exists []. symmetry. apply app_nil_r.
    + exists []. split; [symmetry; apply app_nil_r|intros j []].
  - destruct (frames s) as [|f rest]; [discriminate|].
    destruct (fquit f); [|discriminate].
    injection Hs as <-. simpl. split; [exact Hp|split].
    + exists []. symmetry. apply app_nil_r.
    + eexists; split; [reflexivity|]. intros j [H|[]]. discriminate.
Qed.

(** X19.  Once [poll_queue] has taken the shutdown sentinel (the poll timer
    is stopped), no job is ever started again: whatever happens next, the
    log gains no start of a job and the queue only grows, so the jobs still
    queued, and any submitted later, are never run. *)
Theorem after_sentinel_no_job (env : Env) (ex : Extractor) (s s' : Server) (tr : list SEvent) :
  poll_active s = false -> server_run env ex s tr = Some s' ->
  (exists q, queue s' = queue s ++ q) /\
  (exists l, log s' = log s ++ l /\ forall j, ~ In (LBegin j) l).
Proof.
  revert s. induction tr as [|e tr IH]; intros s Hp Hr; simpl in Hr.
  - injection Hr as <-. split; [exists []|exists []; split; [|intros j []]];
      symmetry; apply app_nil_r.
  - destruct (server_step env ex s e) as [s1|] eqn:Hs; [|discriminate].
    destruct (step_after_sentinel env ex s s1 e Hp Hs) as [Hp1 [[q1 Hq1] [l1 [Hl1 Hn1]]]].
    destruct (IH s1 Hp1 Hr) as [[q2 Hq2] [l2 [Hl2 Hn2]]]. split.
    + exists (q1 ++ q2). rewrite Hq2, Hq1, app_assoc. reflexivity.
    + exists (l1 ++ l2). split; [rewrite Hl2, Hl1, app_assoc; reflexivity|].
      intros j Hj. apply in_app_or in Hj as [Hj|Hj]; [exact (Hn1 j Hj)|exact (Hn2 j Hj)].
Qed.

Lemma after_sentinel_no_job_witness :
  (poll_active (mkServer [Some (mkJob 0 "http://a/" false)] 1 true false false [] [LPush 0]) = false /\
   server_run offline_env (mkExtractor 30000 None true)
     (mkServer [Some (mkJob 0 "http://a/" false)] 1 true false false [] [LPush 0])
     [Submit "http://b/" true; Signal]
   = Some (mkServer [Some (mkJob 0 "http://a/" false); Some (mkJob 1 "http://b/" true)] 2 true
             false false [] [LPush 0; LPush 1])) /\
  (exists q, [Some (mkJob 0 "http://a/" false); Some (mkJob 1 "http://b/" true)]
             = [Some (mkJob 0 "http://a/" false)] ++ q) /\
  (exists l, [LPush 0; LPush 1] = [LPush 0] ++ l /\ forall j, ~ In (LBegin j) l).
Proof.
  split; [split; reflexivity|].
  exact (after_sentinel_no_job offline_env (mkExtractor 30000 None true)
           (mkServer [Some (mkJob 0 "http://a/" false)] 1 true false false [] [LPush 0])
           (mkServer [Some (mkJob 0 "http://a/" false); Some (mkJob 1 "http://b/" true)] 2 true
              false false [] [LPush 0; LPush 1])
           [Submit "http://b/" true; Signal] eq_refl eq_refl).
Defined.

Definition sentinel_inv (s : Server) : Prop :=
  count_sentinels (queue s) + (if poll_active s then 0 else 1) =
  (if shutting_down s then 1 else 0).

Lemma poll_queue_sentinels (env : Env) (ex : Extractor) (s : Server) :
  poll_active s = true -> sentinel_inv s -> sentinel_inv (poll_queue env ex s).
Proof.
  intros Hp Hi. unfold sentinel_inv in *. unfold poll_queue.
  destruct (queue s) as [|[j|] q] eqn:Eq; [rewrite Eq; exact Hi| |].
  - assert (Hc : count_sentinels (Some j :: q) = count_sentinels q) by reflexivity.
    rewrite Hc in Hi.
    destruct (jpdf j); [destruct (extract_pdf env ex (jurl j))|destruct (extract_start ex (jurl j))];
      simpl; exact Hi.
  - assert (Hc : count_sentinels (None :: q) = S (count_sentinels q)) by reflexivity.
    rewrite Hc, Hp in Hi. simpl. lia.
Qed.

Lemma step_sentinels (env : Env) (ex : Extractor) (s s1 : Server) (e : SEvent) :
  sentinel_inv s -> server_step env ex s e = Some s1 -> sentinel_inv s1.
Proof.
  intros Hi Hs. destruct e as [u pdf| | |k ev|]; simpl in Hs.
  - injection Hs as <-. unfold sentinel_inv in *. simpl.
    rewrite count_sentinels_snoc. rewrite Nat.add_0_r. exact Hi.
  - destruct (shutting_down s) eqn:Esd.
    + injection Hs as <-. exact Hi.
    + injection Hs as <-. unfold sentinel_inv in *. simpl.
      rewrite count_sentinels_snoc. rewrite Esd in Hi.
      destruct (poll_active s); lia.
  - destruct (poll_active s) eqn:Ep; [|discriminate].
    destruct (poll_busy s); [discriminate|].
    injection Hs as <-. exact (poll_queue_sentinels env ex s Ep Hi).
  - destruct (nth_error (frames s) k) as [f|]; [|discriminate].
    destruct (deliver f ev) as [f'|]; [|discriminate].
    injection Hs as <-. exact Hi.
  - destruct (frames s) as [|f rest]; [discriminate|].
    destruct (fquit f); [|discriminate].
    injection Hs as <-. exact Hi.
Qed.

(** X20.  From start-up, the shutdown sentinel is accounted for exactly:
    before a signal the queue holds no sentinel and the poll timer runs;
    after the first signal there is one sentinel, either still queued (and
    the only one) or already taken, in which case the timer is stopped.
    Repeated signals add none, and the timer never stops without a signal. *)
Theorem sentinel_accounting (env : Env) (ex : Extractor) (tr : list SEvent) (s : Server) :
  server_run env ex init_server tr = Some s ->
  count_sentinels (queue s) + (if poll_active s then 0 else 1) =
  (if shutting_down s then 1 else 0).
Proof.
  assert (H : forall tr s0, sentinel_inv s0 -> server_run env ex s0 tr = Some s ->
                            sentinel_inv s).
  { induction tr0 as [|e tr0 IH]; intros s0 Hi Hr; simpl in Hr.
    - injection Hr as <-. exact Hi.
    - destruct (server_step env ex s0 e) as [s1|] eqn:Hs; [|discriminate].
      exact (IH s1 (step_sentinels env ex s0 s1 e Hi Hs) Hr). }
  intros Hr. exact (H tr init_server eq_refl Hr).
Qed.

Lemma sentinel_accounting_witness :
  server_run offline_env (mkExtractor 30000 None true) init_server
    [Submit "http://a/" false; Signal; Signal]
  = Some (mkServer [Some (mkJob 0 "http://a/" false); None] 1 true true false [] [LPush 0]) /\
  count_sentinels [Some (mkJob 0 "http://a/" false); None] + (if true then 0 else 1) =
  (if true then 1 else 0).
Proof.
  split; [reflexivity|].
  exact (sentinel_accounting offline_env (mkExtractor 30000 None true)
           [Submit "http://a/" false; Signal; Signal]
           (mkServer [Some (mkJob 0 "http://a/" false); None] 1 true true false [] [LPush 0])
           eq_refl).
Defined.

(** *** [_detect_pdf] never raises on a URL without brackets *)

Lemma fc_cons (c x : ascii) (s : string) :
  Str.find_char c (String x s) = None -> Ascii.eqb x c = false /\ Str.find_char c s = None.
Proof.
  simpl. destruct (Ascii.eqb x c); [discriminate|].
  destruct (Str.find_char c s); [discriminate|]. split; reflexivity.
Qed.

Lemma fc_drop (c : ascii) (n : nat) (s : string) :
  Str.find_char c s = None -> Str.find_char c (Str.drop n s) = None.
Proof.
  revert n. induction s as [|x s IH]; intros n H; destruct n; simpl; auto.
  apply IH. exact (proj2 (fc_cons c x s H)).
Qed.

Lemma fc_lstrip_c0 (c : ascii) (s : string) :
  Str.find_char c s = None -> Str.find_char c (UrlParse.lstrip_c0 s) = None.
Proof.
  induction s as [|x s IH]; intros H; simpl; [reflexivity|].
  destruct (nat_of_ascii x <=? 32)%nat; [apply IH; exact (proj2 (fc_cons c x s H))|exact H].
Qed.

Lemma fc_remove_unsafe (c : ascii) (s : string) :
  Str.find_char c s = None -> Str.find_char c (UrlParse.remove_unsafe s) = None.
Proof.
  induction s as [|x s IH]; intros H; simpl; [reflexivity|].
  destruct (fc_cons c x s H) as [Hx Hs].
  destruct (_ || _ || _); [exact (IH Hs)|]. simpl. rewrite Hx, (IH Hs). reflexivity.
Qed.

Lemma fc_split_scheme (c : ascii) (s : string) :
  Str.find_char c s = None -> Str.find_char c (snd (UrlParse.split_scheme s)) = None.
Proof.
  intros H. unfold UrlParse.split_scheme.
  destruct (Str.find_char ":" s) as [[|i]|]; [exact H| |exact H].
  destruct (_ && _); [apply fc_drop; exact H|exact H].
Qed.

Lemma fc_split_netloc (c : ascii) (s : string) :
  Str.find_char c s = None -> Str.find_char c (fst (UrlParse.split_netloc s)) = None.
Proof.
  induction s as [|x s IH]; intros H; simpl; [reflexivity|].
  destruct (fc_cons c x s H) as [Hx Hs].
  destruct (_ || _ || _); [reflexivity|].
  destruct (UrlParse.split_netloc s) as [n r] eqn:En. simpl.
  rewrite Hx. specialize (IH Hs). simpl in IH. rewrite IH. reflexivity.
Qed.

Lemma netloc_part_no_brackets (chk : string -> option exn) (u : string) :
  Str.find_char "[" u = None -> Str.find_char "]" u = None ->
  exists r, UrlParse.netloc_part chk u = Ok r.
Proof.
  intros Hl Hr. unfold UrlParse.netloc_part.
  destruct (String.prefix "//" u); [|eexists; reflexivity].
  pose proof (fc_split_netloc "[" _ (fc_drop "[" 2 u Hl)) as Hnl.
  pose proof (fc_split_netloc "]" _ (fc_drop "]" 2 u Hr)) as Hnr.
  destruct (UrlParse.split_netloc (Str.drop 2 u)) as [nl rest]. simpl in Hnl, Hnr.
  unfold Str.has_char. rewrite Hnl, Hnr. simpl. eexists; reflexivity.
Qed.

Lemma urlparse_no_brackets (chk : string -> option exn) (u : string) :
  Str.find_char "[" u = None -> Str.find_char "]" u = None ->
  exists p, UrlParse.urlparse chk u = Ok p.
Proof.
  intros Hl Hr. unfold UrlParse.urlparse.
  pose proof (fc_split_scheme "[" _ (fc_remove_unsafe "[" _ (fc_lstrip_c0 "[" u Hl))) as H1.
  pose proof (fc_split_scheme "]" _ (fc_remove_unsafe "]" _ (fc_lstrip_c0 "]" u Hr))) as H2.
  destruct (UrlParse.split_scheme (UrlParse.remove_unsafe (UrlParse.lstrip_c0 u))) as [sch u2].
  simpl in H1, H2.
  destruct (netloc_part_no_brackets chk u2 H1 H2) as [[nl u3] Hn]. rewrite Hn. simpl.
  destruct (UrlParse.split_or "#" u3) as [u4 frag].
  destruct (UrlParse.split_or "?" u4) as [u5 q].
  match goal with |- exists _, (let '(_, _) := ?t in _) = _ => destruct t as [p prm] end.
  eexists; reflexivity.
Qed.

(** X21.  [_detect_pdf] returns a boolean, and never raises, for every ASCII
    URL that contains no square bracket: the HEAD request's failures are
    caught, and [urlparse] raises only on bracketed network locations. *)
Theorem detect_pdf_total (env : Env) (u : string) (ua : option string) (timeout : Z) :
  UrlParse.all_chars (fun x => (nat_of_ascii x <? 128)%nat) u = true ->
  Str.has_char "[" u = false -> Str.has_char "]" u = false ->
  exists b, detect_pdf env u ua timeout = Ok b.
Proof.
  intros _ Hl Hr.
  destruct (urlparse_no_brackets (check_netloc env) u (has_char_false _ _ Hl)
              (has_char_false _ _ Hr)) as [p Hp].
  unfold detect_pdf. rewrite Hp. simpl.
  destruct (Str.endswith _ _); [eexists; reflexivity|].
  destruct (negb _); [eexists; reflexivity|].
  destruct (head_content_type env u (ua_header ua) timeout); eexists; reflexivity.
Qed.

Lemma detect_pdf_total_witness :
  exists b, detect_pdf offline_env "http://example.com/a%5Bb%5D.PDF/" None 10 = Ok b.
Proof.
  apply detect_pdf_total; reflexivity.
Defined.

End ExtraFacts.

